(** * Wallet service bootstrap (service/service.cpp)

    A shallow embedding of [main] and of the [WalletService] class of the
    Beam wallet service, with the properties of its startup, shutdown and
    per-connection handler construction.

    [main] is a sequence of calls into Boost.Program_options, the Beam
    utility library and the reactor.  None of those is part of this file's
    source, so every such call takes its result from an [Env] record (what
    the outside world answers) and leaves an [event] in the trace of the
    process.  Control flow (early [return], exceptions, the two [catch]
    clauses) is the source's own and is modelled by the monad [M]. *)

From stdpp Require Import numbers strings gmap list.

Open Scope string_scope.
Open Scope list_scope.
Open Scope Z_scope.

(** ** Option names (namespace [cli])

    [utility/cli/options.h] declares the option names as string constants.
    Only their identity matters here, so each constant is a constructor;
    the [_FULL] variants ("long,short") name the same option as the plain
    ones.  [RULE] stands for the names added by
    [createRulesOptionsDescription]. *)
Module cli.

Inductive name :=
  | HELP
  | PORT
  | NODE_ADDR
  | ALLOWED_ORIGIN
  | LOG_CLEANUP_DAYS
  | NODE_POLL_PERIOD
  | WITH_SYNC_PIPES
  | WITH_ASSETS
  | RULE (s : string).

Definition HELP_FULL := HELP.
Definition PORT_FULL := PORT.
Definition NODE_ADDR_FULL := NODE_ADDR.

#[global] Instance name_eq_dec : EqDecision name.
Proof. solve_decision. Defined.

Definition to_sum (n : name) : nat + string :=
  match n with
  | HELP => inl 0%nat
  | PORT => inl 1%nat
  | NODE_ADDR => inl 2%nat
  | ALLOWED_ORIGIN => inl 3%nat
  | LOG_CLEANUP_DAYS => inl 4%nat
  | NODE_POLL_PERIOD => inl 5%nat
  | WITH_SYNC_PIPES => inl 6%nat
  | WITH_ASSETS => inl 7%nat
  | RULE s => inr s
  end.

Definition of_sum (x : nat + string) : option name :=
  match x with
  | inl 0%nat => Some HELP
  | inl 1%nat => Some PORT
  | inl 2%nat => Some NODE_ADDR
  | inl 3%nat => Some ALLOWED_ORIGIN
  | inl 4%nat => Some LOG_CLEANUP_DAYS
  | inl 5%nat => Some NODE_POLL_PERIOD
  | inl 6%nat => Some WITH_SYNC_PIPES
  | inl 7%nat => Some WITH_ASSETS
  | inl _ => None
  | inr s => Some (RULE s)
  end.

#[global] Program Instance name_countable : Countable name :=
  inj_countable to_sum of_sum _.
Next Obligation. by intros []. Qed.

End cli.

(** ** Values, the [options] struct and the option table *)

(** What a [po::value<T>] holds once parsed.  [nonneg_u32] is
    [Nonnegative<uint32_t>]. *)
Inductive value :=
  | u16 (n : Z)
  | u32 (n : Z)
  | nonneg_u32 (n : Z)
  | str (s : string)
  | boolean (b : bool).

(** [po::variable_value]: the value and whether it came from a default. *)
Record variable_value := { as_value : value; defaulted : bool }.

(** The local struct [options] of [main]. *)
Record options_t := {
  port : Z;
  nodeURI : string;
  pollPeriod_ms : Z;
  logCleanupPeriod : Z;
  allowedOrigin : string;
  withPipes : bool;
  withAssets : bool
}.

(** The member a [po::value(&options.x)] stores to. *)
Inductive member :=
  | m_port
  | m_nodeURI
  | m_pollPeriod_ms
  | m_logCleanupPeriod
  | m_allowedOrigin
  | m_withPipes
  | m_withAssets.

(** One line of [desc.add_options()]: the name, the member the value is
    stored to (none for a flag such as help), the default and the help
    text. *)
Record option_description := {
  long_name : cli.name;
  store_to : option member;
  default_value : option value;
  description : string
}.

(** Assignment through the stored pointer.  Boost only ever hands a value
    to the semantic that parsed it, so the types agree; a value of another
    type leaves the member as it is. *)
Definition assign (m : member) (x : value) (o : options_t) : options_t :=
  match m, x with
  | m_port, u16 n =>
      {| port := n; nodeURI := nodeURI o; pollPeriod_ms := pollPeriod_ms o;
         logCleanupPeriod := logCleanupPeriod o; allowedOrigin := allowedOrigin o;
         withPipes := withPipes o; withAssets := withAssets o |}
  | m_nodeURI, str s =>
      {| port := port o; nodeURI := s; pollPeriod_ms := pollPeriod_ms o;
         logCleanupPeriod := logCleanupPeriod o; allowedOrigin := allowedOrigin o;
         withPipes := withPipes o; withAssets := withAssets o |}
  | m_pollPeriod_ms, nonneg_u32 n =>
      {| port := port o; nodeURI := nodeURI o; pollPeriod_ms := n;
         logCleanupPeriod := logCleanupPeriod o; allowedOrigin := allowedOrigin o;
         withPipes := withPipes o; withAssets := withAssets o |}
  | m_logCleanupPeriod, u32 n =>
      {| port := port o; nodeURI := nodeURI o; pollPeriod_ms := pollPeriod_ms o;
         logCleanupPeriod := n; allowedOrigin := allowedOrigin o;
         withPipes := withPipes o; withAssets := withAssets o |}
  | m_allowedOrigin, str s =>
      {| port := port o; nodeURI := nodeURI o; pollPeriod_ms := pollPeriod_ms o;
         logCleanupPeriod := logCleanupPeriod o; allowedOrigin := s;
         withPipes := withPipes o; withAssets := withAssets o |}
  | m_withPipes, boolean b =>
      {| port := port o; nodeURI := nodeURI o; pollPeriod_ms := pollPeriod_ms o;
         logCleanupPeriod := logCleanupPeriod o; allowedOrigin := allowedOrigin o;
         withPipes := b; withAssets := withAssets o |}
  | m_withAssets, boolean b =>
      {| port := port o; nodeURI := nodeURI o; pollPeriod_ms := pollPeriod_ms o;
         logCleanupPeriod := logCleanupPeriod o; allowedOrigin := allowedOrigin o;
         withPipes := withPipes o; withAssets := b |}
  | _, _ => o
  end.

(** Lines 103-110: the options [main] declares itself. *)
Definition general_options : list option_description :=
  [ {| long_name := cli.HELP_FULL; store_to := None; default_value := None;
       description := "list of all options" |};
    {| long_name := cli.PORT_FULL; store_to := Some m_port;
       default_value := Some (u16 8080);
       description := "port to start server on" |};
    {| long_name := cli.NODE_ADDR_FULL; store_to := Some m_nodeURI;
       default_value := None; description := "address of node" |};
    {| long_name := cli.ALLOWED_ORIGIN; store_to := Some m_allowedOrigin;
       default_value := Some (str ""); description := "allowed origin" |};
    {| long_name := cli.LOG_CLEANUP_DAYS; store_to := Some m_logCleanupPeriod;
       default_value := Some (u32 5);
       description := "old logfiles cleanup period(days)" |};
    {| long_name := cli.NODE_POLL_PERIOD; store_to := Some m_pollPeriod_ms;
       default_value := Some (nonneg_u32 0);
       description := "Node poll period in milliseconds. Set to 0 to keep connection. Anyway poll period would be no less than the expected rate of blocks if it is less then it will be rounded up to block rate value." |};
    {| long_name := cli.WITH_SYNC_PIPES; store_to := Some m_withPipes;
       default_value := Some (boolean false);
       description := "enable sync pipes" |};
    {| long_name := cli.WITH_ASSETS; store_to := Some m_withAssets;
       default_value := Some (boolean false);
       description := "enable confidential assets transactions" |} ].

(** ** [po::variables_map] *)

Abbreviation variables_map := (gmap cli.name variable_value).

(** [vm.count(name)] *)
Definition count (vm : variables_map) (n : cli.name) : Z :=
  match vm !! n with Some _ => 1 | None => 0 end.

(** [po::store(parsed, vm)] as Boost documents it: a parsed value does not
    replace one stored earlier (only a defaulted one), and every option
    of the description that has a default and no value yet receives the
    default. *)
Definition store_parsed (vm : variables_map) (kv : cli.name * value) : variables_map :=
  match vm !! kv.1 with
  | Some {| defaulted := false |} => vm
  | _ => <[kv.1 := {| as_value := kv.2; defaulted := false |}]> vm
  end.

Definition store_default (vm : variables_map) (d : option_description) : variables_map :=
  match default_value d, vm !! long_name d with
  | Some x, None => <[long_name d := {| as_value := x; defaulted := true |}]> vm
  | _, _ => vm
  end.

Definition store (parsed : list (cli.name * value)) (desc : list option_description)
    (vm : variables_map) : variables_map :=
  foldl store_default (foldl store_parsed vm parsed) desc.

(** [vm.notify()]: each stored value is written to the member its option
    is bound to. *)
Definition notify_one (vm : variables_map) (o : options_t) (d : option_description)
    : options_t :=
  match store_to d, vm !! long_name d with
  | Some m, Some x => assign m (as_value x) o
  | _, _ => o
  end.

Definition notify (desc : list option_description) (vm : variables_map)
    (o : options_t) : options_t :=
  foldl (notify_one vm) o desc.

(** ** Exceptions, results of outside calls, log lines *)

(** What a [throw] carries, as far as the two [catch] clauses of [main]
    tell apart: something derived from [std::exception], or anything else. *)
Inductive exn :=
  | std_exception (what : string)
  | non_std_exception.

(** The result of a call that leaves this file. *)
Inductive outcome (A : Type) :=
  | returns (a : A)
  | throws (e : exn).
Arguments returns {A} a.
Arguments throws {A} e.

Inductive log_level := LOG_LEVEL_INFO | LOG_LEVEL_ERROR.

(** One operand of a [<<] chain. *)
Inductive frag :=
  | txt (s : string)
  | num (n : Z)
  | flag (b : bool).

(** How a statement ends: normally with a value, by [return code] out of
    [main], by an exception in flight, or with the process killed by a
    signal nobody handles. *)
Inductive completion (A : Type) :=
  | Normal (a : A)
  | Return (code : Z)
  | Throw (e : exn)
  | Killed.
Arguments Normal {A} a.
Arguments Return {A} code.
Arguments Throw {A} e.
Arguments Killed {A}.

Definition loc := positive.
Definition conn := nat.

Definition LOG_FILES_DIR : string := "logs".
Definition LOG_FILES_PREFIX : string := "service_".

(** [const unsigned LOG_ROTATION_PERIOD_SEC = 12 * 60 * 60;] *)
Definition LOG_ROTATION_PERIOD_SEC : Z := (12 * 60 * 60) mod 2 ^ 32.

Section Service.

(** Types declared outside this file: [io::Address], the send function
    [WebSocketServer::SendFunc] a connection hands out, and the record a
    [WalletMap] keeps per wallet. *)
Context {Address SendFunc WalletInfo : Type}.

(** [WalletMap]: wallet sessions by key. *)
Abbreviation WalletMap := (gmap string WalletInfo).

(** ** The two classes *)

(** A [ServiceClient] as [WalletService] constructs it: the four
    constructor arguments.  The last one is a [WalletMap&], a reference:
    the address of the map it is bound to. *)
Record ServiceClient := {
  sc_withAssets : bool;
  sc_nodeAddr : Address;
  sc_wsSend : SendFunc;
  sc_walletMap : loc
}.

(** [WalletService]: the arguments forwarded to the [WebSocketServer] base
    and the three members.  [_walletMap] is a member object; the record
    holds the address it lives at. *)
Record WalletService := {
  ws_port : Z;
  ws_title : string;
  ws_withPipes : bool;
  ws_allowedOrigin : string;
  _withAssets : bool;
  _nodeAddr : Address;
  _walletMap : loc
}.

(** [WalletService::ReactorThread_onNewWSClient] (lines 60-63). *)
Definition ReactorThread_onNewWSClient (this : WalletService) (wsSend : SendFunc)
    : ServiceClient :=
  {| sc_withAssets := _withAssets this;
     sc_nodeAddr := _nodeAddr this;
     sc_wsSend := wsSend;
     sc_walletMap := _walletMap this |}.

(** ** Trace and process state *)

Inductive event :=
  | LoggerCreate (logPrefix : list frag) (path : string)
  | ActivateCrashLog
  | Log (level : log_level) (msg : list frag)
  | Cout (desc : list option_description)
  | CommandLineParse (argv : list string)
  | CfgFileCommon
  | CfgFile (name : string)
  | CleanOldLogfiles (dir prefix : string) (sec : Z)
  | GetRulesOptions
  | RulesUpdateChecksum
  | Resolve (uri : string)
  | ReactorCreate
  | ReactorScope
  | IntHandlerInstall
  | LogRotationStart (period_sec cleanup_sec : Z)
  | Listen (port : Z) (title : string) (withPipes : bool) (allowedOrigin : string)
  | RunEnter
  | RunLeave
  | ClientCreate (id : conn) (c : ServiceClient)
  | ClientDestroy (id : conn).

(** The state of the process: what happened so far, whether the reactor's
    interrupt handler is installed, the [WalletMap] objects alive (by
    address), the server listening on the reactor and the handler of each
    open connection. *)
Record world := {
  trace : list event;
  int_handler : bool;
  wallet_maps : gmap loc WalletMap;
  listening : option WalletService;
  clients : gmap conn ServiceClient
}.

Definition initial : world :=
  {| trace := []; int_handler := false; wallet_maps := ∅;
     listening := None; clients := ∅ |}.

(** The state after the events [t] happened. *)
Definition record (t : list event) (w : world) : world :=
  {| trace := trace w ++ t; int_handler := int_handler w;
     wallet_maps := wallet_maps w; listening := listening w; clients := clients w |}.

Definition with_int_handler (b : bool) (w : world) : world :=
  {| trace := trace w; int_handler := b;
     wallet_maps := wallet_maps w; listening := listening w; clients := clients w |}.

Definition with_wallet_maps (f : gmap loc WalletMap → gmap loc WalletMap) (w : world)
    : world :=
  {| trace := trace w; int_handler := int_handler w;
     wallet_maps := f (wallet_maps w); listening := listening w; clients := clients w |}.

Definition with_listening (s : option WalletService) (w : world) : world :=
  {| trace := trace w; int_handler := int_handler w;
     wallet_maps := wallet_maps w; listening := s; clients := clients w |}.

Definition with_clients (f : gmap conn ServiceClient → gmap conn ServiceClient)
    (w : world) : world :=
  {| trace := trace w; int_handler := int_handler w;
     wallet_maps := wallet_maps w; listening := listening w; clients := f (clients w) |}.

(** ** The monad of statements *)

Definition M (A : Type) : Type := world → world * completion A.

#[local] Instance M_ret : MRet M := λ A a w, (w, Normal a).

#[local] Instance M_bind : MBind M := λ A B k m w,
  match m w with
  | (w', Normal a) => k a w'
  | (w', Return code) => (w', Return code)
  | (w', Throw e) => (w', Throw e)
  | (w', Killed) => (w', Killed)
  end.

(** [return code;] *)
Definition return_ {A} (code : Z) : M A := λ w, (w, Return code).

(** [try { body } catch ... { handler }] *)
Definition try_catch {A} (body : M A) (handler : exn → M A) : M A := λ w,
  match body w with
  | (w', Throw e) => handler e w'
  | r => r
  end.

Definition emit (e : event) : M unit := λ w, (record [e] w, Normal tt).

(** A call that leaves this file: it is recorded, then returns or throws as
    the outside decides. *)
Definition call {A} (e : event) (o : outcome A) : M A := λ w,
  (record [e] w,
   match o with returns a => Normal a | throws x => Throw x end).

Definition LOG_INFO (msg : list frag) : M unit := emit (Log LOG_LEVEL_INFO msg).
Definition LOG_ERROR (msg : list frag) : M unit := emit (Log LOG_LEVEL_ERROR msg).

(** ** What the reactor delivers while [run()] executes *)

Inductive loop_event :=
  | on_accept (wsSend : SendFunc)
  | on_frame (id : conn) (update : WalletMap → WalletMap)
  | on_close (id : conn)
  | on_signal
  | on_exception (e : exn).

(** ** The outside world *)

(** One field per function, macro or constant [main] uses and this file
    does not define, named after it.  A field of type [outcome] is a call
    that may throw.  [options_indeterminate] holds what the members of
    [options] without an initializer contain before [notify];
    [reactor_events] is what the reactor delivers while [run()] executes,
    in order. *)
Record Env := {
  getCurrentPID : Z;
  system_complete : string → string;
  Logger_create : list frag → string → outcome unit;
  PROJECT_VERSION : string;
  BRANCH_NAME : string;
  NDEBUG : bool;
  options_indeterminate : options_t;
  createRulesOptionsDescription : list option_description;
  command_line_parser :
    list string → list option_description → outcome (list (cli.name * value));
  ReadCfgFromFileCommon :
    variables_map → list option_description → outcome variables_map;
  ReadCfgFromFile :
    variables_map → list option_description → string → outcome variables_map;
  days2sec : Z → Z;
  sec2readable : Z → string;
  clean_old_logfiles : string → string → Z → outcome unit;
  getRulesOptions : variables_map → outcome unit;
  Rules_UpdateChecksum : outcome unit;
  Rules_get_SignatureStr : string;
  current_path : string;
  resolve : string → option Address;
  SafeReactor_create : outcome unit;
  LogRotation_ctor : Z → Z → outcome unit;
  WebSocketServer_ctor : Z → string → bool → string → outcome unit;
  reactor_events : list loop_event
}.

(** ** [WalletService] construction and the reactor *)

(** A member [WalletMap] comes to life empty at an address of its own. *)
Definition new_WalletMap : M loc := λ w,
  let l := fresh (dom (wallet_maps w)) in
  (with_wallet_maps <[l := ∅]> w, Normal l).

(** The constructor (lines 49-55): the [WebSocketServer] base is built
    first, with the title "Wallet service", and may throw (the port cannot
    be bound); then the members in declaration order.  The finished object
    is the one whose accept callback the reactor calls. *)
Definition WalletService_ctor (env : Env) (withAssets : bool) (nodeAddr : Address)
    (port : Z) (allowedOrigin : string) (withPipes : bool) : M WalletService :=
  _ ← call (Listen port "Wallet service" withPipes allowedOrigin)
           (WebSocketServer_ctor env port "Wallet service" withPipes allowedOrigin);
  l ← new_WalletMap;
  let this :=
    {| ws_port := port; ws_title := "Wallet service"; ws_withPipes := withPipes;
       ws_allowedOrigin := allowedOrigin;
       _withAssets := withAssets; _nodeAddr := nodeAddr; _walletMap := l |} in
  _ ← (λ w, (with_listening (Some this) w, Normal tt)) : M unit;
  mret this.

(** [io::Reactor::GracefulIntHandler gih(reactor)] *)
Definition GracefulIntHandler_ctor : M unit := λ w,
  (with_int_handler true (record [IntHandlerInstall] w), Normal tt).

(** Modelled from the spec: the accept, frame and close paths of
    [WebSocketServer] and the loop of [io::Reactor::run], which are not in
    the sources.  Section 4.2: on each accepted connection exactly one
    handler is constructed, through the server's
    [ReactorThread_onNewWSClient], and on close it is destroyed; a handler
    reaches the registry only through the reference it holds.  Sections
    4.1 and 4.5: on a signal the installed handler stops the loop and
    [run()] returns; an exception escaping a callback leaves [run()];
    [run()] also returns when no work is left.  A signal with no handler
    installed kills the process (the default disposition).  The result
    tells the loop whether to go on. *)
Definition dispatch (ev : loop_event) : M bool := λ w,
  match ev with
  | on_accept wsSend =>
      match listening w with
      | Some server =>
          let id := fresh (dom (clients w)) in
          let h := ReactorThread_onNewWSClient server wsSend in
          (with_clients <[id := h]> (record [ClientCreate id h] w),
           Normal true)
      | None => (w, Normal true)
      end
  | on_frame id update =>
      match clients w !! id with
      | Some h => (with_wallet_maps (alter update (sc_walletMap h)) w, Normal true)
      | None => (w, Normal true)
      end
  | on_close id =>
      match clients w !! id with
      | Some _ =>
          (with_clients (delete id) (record [ClientDestroy id] w),
           Normal true)
      | None => (w, Normal true)
      end
  | on_signal => if int_handler w then (w, Normal false) else (w, Killed)
  | on_exception e => (w, Throw e)
  end.

(** Modelled from the spec: [run()] handles what arrives, in order, until
    it is stopped or nothing is left (section 4.1). *)
Fixpoint Reactor_deliver (evs : list loop_event) : M unit :=
  match evs with
  | [] => mret tt
  | ev :: evs' =>
      continue ← dispatch ev;
      if continue : bool then Reactor_deliver evs' else mret tt
  end.

(** [safeReactor->ref().run()] *)
Definition Reactor_run (env : Env) : M unit :=
  _ ← emit RunEnter;
  _ ← Reactor_deliver (reactor_events env);
  emit RunLeave.

(** ** The end of the objects *)

(** Modelled from the spec: what [~WebSocketServer], which is not in the
    sources, does to the handlers.  The server owns its connections and no
    handler outlives its connection (section 3), so none is left. *)
Definition WebSocketServer_dtor (w : world) : world :=
  with_clients (λ _, ∅) w.

(** [~WalletService() = default] (line 57): the object is gone, so nothing
    listens any more; its member [_walletMap] is destroyed with it; then the
    [WebSocketServer] base. *)
Definition WalletService_dtor (this : WalletService) (w : world) : world :=
  WebSocketServer_dtor
    (with_listening None (with_wallet_maps (delete (_walletMap this)) w)).

(** [~GracefulIntHandler]: the handler is no longer installed. *)
Definition GracefulIntHandler_dtor (w : world) : world :=
  with_int_handler false w.

(** The closing brace of the [try] block (line 172), reached by its last
    statement, by a [return] or by an exception in flight: the locals
    constructed so far are destroyed, last first.  [server] exists when
    line 168 completed; of [logRotation], [gih], [scope] and [safeReactor]
    only [gih] has state here. *)
Definition leave_try_block (w : world) : world :=
  GracefulIntHandler_dtor
    match listening w with
    | Some server => WalletService_dtor server w
    | None => w
    end.

(** ** [main] *)

(** Lines 87-96: the struct as declared; only the two flags have
    initializers, the strings start empty, the integers hold whatever the
    stack held. *)
Definition options_declared (env : Env) : options_t :=
  {| port := port (options_indeterminate env);
     nodeURI := "";
     pollPeriod_ms := pollPeriod_ms (options_indeterminate env);
     logCleanupPeriod := logCleanupPeriod (options_indeterminate env);
     allowedOrigin := "";
     withPipes := false;
     withAssets := false |}.

(** The description [main] parses with: its own options, then the rules
    options (line 113). *)
Definition desc (env : Env) : list option_description :=
  general_options ++ createRulesOptionsDescription env.

(** Lines 101-130: the description, the command line, help, the
    configuration files, [notify]. *)
Definition main_options (env : Env) (argv : list string)
    : M (variables_map * options_t) :=
  let options := options_declared env in
  let desc := desc env in
  parsed ← call (CommandLineParse argv) (command_line_parser env argv desc);
  let vm := store parsed desc ∅ in
  if negb (count vm cli.HELP =? 0) then
    _ ← emit (Cout desc);
    return_ 0
  else
    vm ← call CfgFileCommon (ReadCfgFromFileCommon env vm desc);
    vm ← call (CfgFile "wallet-api.cfg") (ReadCfgFromFile env vm desc "wallet-api.cfg");
    mret (vm, notify desc vm options).

(** Lines 132-156: cleanup of old log files, the rules, the banner, and
    the node address. *)
Definition main_startup (env : Env) (vm : variables_map) (options : options_t)
    : M Address :=
  _ ← call (CleanOldLogfiles LOG_FILES_DIR LOG_FILES_PREFIX
              (days2sec env (logCleanupPeriod options)))
           (clean_old_logfiles env LOG_FILES_DIR LOG_FILES_PREFIX
              (days2sec env (logCleanupPeriod options)));
  _ ← call GetRulesOptions (getRulesOptions env vm);
  _ ← call RulesUpdateChecksum (Rules_UpdateChecksum env);
  _ ← LOG_INFO [txt "Beam Wallet API Service "; txt (PROJECT_VERSION env);
                txt " ("; txt (BRANCH_NAME env); txt ")"];
  _ ← LOG_INFO [txt "Rules signature: "; txt (Rules_get_SignatureStr env)];
  _ ← LOG_INFO [txt "Current folder is "; txt (current_path env)];
  _ ← LOG_INFO [txt (if NDEBUG env then "Log mode: Non-Debug" else "Log mode: Debug")];
  if count vm cli.NODE_ADDR =? 0 then
    _ ← LOG_ERROR [txt "node address should be specified"];
    return_ (-1)
  else
    _ ← emit (Resolve (nodeURI options));
    match resolve env (nodeURI options) with
    | None =>
        _ ← LOG_ERROR [txt "unable to resolve node address: `";
                       txt (nodeURI options); txt "`"];
        return_ (-1)
    | Some node_addr => mret node_addr
    end.

(** Lines 159-171: the reactor, the interrupt handler, log rotation, the
    server, [run()]. *)
Definition main_serve (env : Env) (options : options_t) (node_addr : Address)
    : M unit :=
  _ ← call ReactorCreate (SafeReactor_create env);
  _ ← emit ReactorScope;
  _ ← GracefulIntHandler_ctor;
  _ ← call (LogRotationStart LOG_ROTATION_PERIOD_SEC
              (days2sec env (logCleanupPeriod options)))
           (LogRotation_ctor env LOG_ROTATION_PERIOD_SEC
              (days2sec env (logCleanupPeriod options)));
  _ ← LOG_INFO [txt "Log rotation: "; txt (sec2readable env LOG_ROTATION_PERIOD_SEC);
                txt ". Log cleanup: "; num (logCleanupPeriod options); txt " days."];
  _ ← LOG_INFO [txt "Starting server on port "; num (port options);
                txt ", sync pipes "; flag (withPipes options)];
  server ← WalletService_ctor env (withAssets options) node_addr (port options)
             (allowedOrigin options) (withPipes options);
  _ ← Reactor_run env;
  LOG_INFO [txt "Done"].

(** The statements of the [try] block (lines 87-171). *)
Definition main_block (env : Env) (argv : list string) : M unit :=
  '(vm, options) ← main_options env argv;
  node_addr ← main_startup env vm options;
  main_serve env options node_addr.

(** The [try] block (lines 85-172): its statements, then its locals are
    destroyed, however the statements ended.  A process killed by a signal
    runs no destructor. *)
Definition main_try (env : Env) (argv : list string) : M unit := λ w,
  match main_block env argv w with
  | (w', Killed) => (w', Killed)
  | (w', r) => (leave_try_block w', r)
  end.

(** Line 81: ["service_" + std::to_string(getCurrentPID()) + "_"]. *)
Definition logPrefix (env : Env) : list frag :=
  [txt LOG_FILES_PREFIX; num (getCurrentPID env); txt "_"].

(** The two [catch] clauses (lines 173-180). *)
Definition main_catch (e : exn) : M unit :=
  match e with
  | std_exception what => LOG_ERROR [txt "EXCEPTION: "; txt what]
  | non_std_exception => LOG_ERROR [txt "NON_STD EXCEPTION"]
  end.

(** [int main(int argc, char* argv[])] *)
Definition main (env : Env) (argv : list string) : M unit :=
  let path := system_complete env LOG_FILES_DIR in
  let logPrefix := logPrefix env in
  _ ← call (LoggerCreate logPrefix path) (Logger_create env logPrefix path);
  _ ← emit ActivateCrashLog;
  _ ← try_catch (main_try env argv) main_catch;
  return_ 0.

(** The process from its start: the final state and how [main] ended. *)
Definition process (env : Env) (argv : list string) : world * completion unit :=
  main env argv initial.

(** The status [main] returned, if it returned. *)
Definition exit_code (r : world * completion unit) : option Z :=
  match r.2 with Return code => Some code | _ => None end.

(** ** Vocabulary of the properties *)

(** The logger could be created: [main] gets as far as its [try]. *)
Definition logger_created (env : Env) : Prop :=
  Logger_create env (logPrefix env) (system_complete env LOG_FILES_DIR) = returns tt.

(** The state in which the [try] block is entered. *)
Definition try_entry (env : Env) : world :=
  record [LoggerCreate (logPrefix env) (system_complete env LOG_FILES_DIR);
          ActivateCrashLog] initial.

(** The state in which the statements of the [try] block end, before line
    172 destroys its locals. *)
Definition block_end (env : Env) (argv : list string) : world :=
  (main_block env argv (try_entry env)).1.

(** What the [catch] clause taking [e] writes to the log. *)
Definition catch_message (e : exn) : list frag :=
  match e with
  | std_exception what => [txt "EXCEPTION: "; txt what]
  | non_std_exception => [txt "NON_STD EXCEPTION"]
  end.

(** Events only lines 159-171 and the running reactor produce. *)
Definition serving (e : event) : bool :=
  match e with
  | ReactorCreate | ReactorScope | IntHandlerInstall | LogRotationStart _ _
  | Listen _ _ _ _ | RunEnter | RunLeave | ClientCreate _ _ | ClientDestroy _ => true
  | _ => false
  end.

(** [run()] was entered. *)
Definition entered_run (t : list event) : Prop := RunEnter ∈ t.

(** The banner lines 136-144. *)
Definition banner (env : Env) : list event :=
  [Log LOG_LEVEL_INFO [txt "Beam Wallet API Service "; txt (PROJECT_VERSION env);
                       txt " ("; txt (BRANCH_NAME env); txt ")"];
   Log LOG_LEVEL_INFO [txt "Rules signature: "; txt (Rules_get_SignatureStr env)];
   Log LOG_LEVEL_INFO [txt "Current folder is "; txt (current_path env)];
   Log LOG_LEVEL_INFO
     [txt (if NDEBUG env then "Log mode: Non-Debug" else "Log mode: Debug")]].

(** What lines 159-168 leave in the trace when nothing throws. *)
Definition serve_setup (env : Env) (options : options_t) : list event :=
  [ReactorCreate; ReactorScope; IntHandlerInstall;
   LogRotationStart LOG_ROTATION_PERIOD_SEC (days2sec env (logCleanupPeriod options));
   Log LOG_LEVEL_INFO
     [txt "Log rotation: "; txt (sec2readable env LOG_ROTATION_PERIOD_SEC);
      txt ". Log cleanup: "; num (logCleanupPeriod options); txt " days."];
   Log LOG_LEVEL_INFO
     [txt "Starting server on port "; num (port options);
      txt ", sync pipes "; flag (withPipes options)];
   Listen (port options) "Wallet service" (withPipes options) (allowedOrigin options)].

(** The [server] object of line 168, constructed in state [w]. *)
Definition server_in (options : options_t) (node_addr : Address) (w : world)
    : WalletService :=
  {| ws_port := port options; ws_title := "Wallet service";
     ws_withPipes := withPipes options; ws_allowedOrigin := allowedOrigin options;
     _withAssets := withAssets options; _nodeAddr := node_addr;
     _walletMap := fresh (dom (wallet_maps w)) |}.

(** The state in which [run()] starts delivering. *)
Definition run_entry (env : Env) (options : options_t) (node_addr : Address)
    (w : world) : world :=
  {| trace := trace w ++ serve_setup env options ++ [RunEnter];
     int_handler := true;
     wallet_maps := <[fresh (dom (wallet_maps w)) := ∅]> (wallet_maps w);
     listening := Some (server_in options node_addr w);
     clients := clients w |}.

(** Whether lines 159-168 complete: the three constructors that can throw. *)
Definition serve_setup_ok (env : Env) (options : options_t) : Prop :=
  SafeReactor_create env = returns tt ∧
  LogRotation_ctor env LOG_ROTATION_PERIOD_SEC
    (days2sec env (logCleanupPeriod options)) = returns tt ∧
  WebSocketServer_ctor env (port options) "Wallet service" (withPipes options)
    (allowedOrigin options) = returns tt.

(** The send functions of the connections [run()] accepts out of [evs]:
    it stops delivering at the first signal or escaping exception. *)
Fixpoint accepted (evs : list loop_event) : list SendFunc :=
  match evs with
  | [] => []
  | on_accept wsSend :: evs' => wsSend :: accepted evs'
  | on_signal :: _ => []
  | on_exception _ :: _ => []
  | _ :: evs' => accepted evs'
  end.

(** The handlers a trace saw constructed, in order. *)
Definition constructed (t : list event) : list ServiceClient :=
  omap (λ e, match e with ClientCreate _ h => Some h | _ => None end) t.

(** An event of a connection coming or going. *)
Definition client_event (e : event) : bool :=
  match e with ClientCreate _ _ | ClientDestroy _ => true | _ => false end.

Definition is_exception (ev : loop_event) : bool :=
  match ev with on_exception _ => true | _ => false end.

(** [a] happens in [t] before [b] first does. *)
Definition precedes (a b : event) (t : list event) : Prop :=
  ∃ t1 t2, t = t1 ++ b :: t2 ∧ (b ∉ t1) ∧ (a ∈ t1).

(** The map and the struct lines 101-130 produce, when they complete. *)
Definition options_read (env : Env) (argv : list string)
    : option (variables_map * options_t) :=
  match (main_options env argv (try_entry env)).2 with
  | Normal x => Some x
  | _ => None
  end.

(** Lines 132-135 complete: the three calls that can throw return. *)
Definition startup_calls_return (env : Env) (vm : variables_map) (options : options_t)
    : Prop :=
  clean_old_logfiles env LOG_FILES_DIR LOG_FILES_PREFIX
    (days2sec env (logCleanupPeriod options)) = returns tt ∧
  getRulesOptions env vm = returns tt ∧
  Rules_UpdateChecksum env = returns tt.

#[local] Instance exn_eq_dec : EqDecision exn.
Proof. solve_decision. Defined.

#[local] Instance outcome_eq_dec {A} `{EqDecision A} : EqDecision (outcome A).
Proof. solve_decision. Defined.

#[local] Instance logger_created_dec (env : Env) : Decision (logger_created env).
Proof. unfold logger_created. apply _. Defined.

#[local] Instance serve_setup_ok_dec (env : Env) (options : options_t) :
  Decision (serve_setup_ok env options).
Proof. unfold serve_setup_ok. apply _. Defined.

(** [main] reaches line 159 with the map [vm], the struct [options] and
    the resolved address, having left the events [t] since entering its
    [try]. *)
Definition reaches_serve (env : Env) (argv : list string) (t : list event)
    (vm : variables_map) (options : options_t) (node_addr : Address) : Prop :=
  logger_created env ∧
  options_read env argv = Some (vm, options) ∧
  main_block env argv (try_entry env) =
    main_serve env options node_addr (record t (try_entry env)) ∧
  Forall (λ e, serving e = false) t ∧
  CleanOldLogfiles LOG_FILES_DIR LOG_FILES_PREFIX
    (days2sec env (logCleanupPeriod options)) ∈ t ∧
  count vm cli.NODE_ADDR ≠ 0 ∧
  resolve env (nodeURI options) = Some node_addr.

(** A connection accepted or closed. *)
Definition connection_event (ev : loop_event) : bool :=
  match ev with on_accept _ | on_close _ => true | _ => false end.

(** The rules options store to the rules, not to members of the
    [options] struct of [main]. *)
Definition rules_options_foreign (env : Env) : Prop :=
  Forall (λ d, store_to d = None) (createRulesOptionsDescription env).

(** What lines 117-157 leave in the trace when nothing throws, help is not
    asked for and the node address resolves. *)
Definition startup_events (env : Env) (argv : list string) (options : options_t)
    : list event :=
  [CommandLineParse argv; CfgFileCommon; CfgFile "wallet-api.cfg";
   CleanOldLogfiles LOG_FILES_DIR LOG_FILES_PREFIX
     (days2sec env (logCleanupPeriod options));
   GetRulesOptions; RulesUpdateChecksum]
  ++ banner env ++ [Resolve (nodeURI options)].

(** Lines 77-157 complete: the logger exists, the options are read, the
    startup calls return, the node address is there and resolves. *)
Definition startup_succeeds (env : Env) (argv : list string) (vm : variables_map)
    (options : options_t) (node_addr : Address) : Prop :=
  logger_created env ∧
  options_read env argv = Some (vm, options) ∧
  startup_calls_return env vm options ∧
  count vm cli.NODE_ADDR ≠ 0 ∧
  resolve env (nodeURI options) = Some node_addr.

(** A line of the error log. *)
Definition is_error_log (e : event) : bool :=
  match e with Log LOG_LEVEL_ERROR _ => true | _ => false end.

(** The member [m] of the struct, as the value an option would hold. *)
Definition member_value (m : member) (o : options_t) : value :=
  match m with
  | m_port => u16 (port o)
  | m_nodeURI => str (nodeURI o)
  | m_pollPeriod_ms => nonneg_u32 (pollPeriod_ms o)
  | m_logCleanupPeriod => u32 (logCleanupPeriod o)
  | m_allowedOrigin => str (allowedOrigin o)
  | m_withPipes => boolean (withPipes o)
  | m_withAssets => boolean (withAssets o)
  end.

(** The value has the type of the member. *)
Definition fits (m : member) (x : value) : bool :=
  match m, x with
  | m_port, u16 _ | m_nodeURI, str _ | m_pollPeriod_ms, nonneg_u32 _
  | m_logCleanupPeriod, u32 _ | m_allowedOrigin, str _
  | m_withPipes, boolean _ | m_withAssets, boolean _ => true
  | _, _ => false
  end.

(** ** Equations of the monad *)

Lemma bind_eq {A B} (m : M A) (k : A → M B) (w : world) :
  (m ≫= k) w =
  match m w with
  | (w', Normal a) => k a w'
  | (w', Return code) => (w', Return code)
  | (w', Throw e) => (w', Throw e)
  | (w', Killed) => (w', Killed)
  end.
Proof. reflexivity. Qed.

Lemma ret_eq {A} (a : A) (w : world) : (mret a : M A) w = (w, Normal a).
Proof. reflexivity. Qed.

Lemma emit_eq (e : event) (w : world) : emit e w = (record [e] w, Normal tt).
Proof. reflexivity. Qed.

Lemma call_returns {A} (e : event) (a : A) (w : world) :
  call e (returns a) w = (record [e] w, Normal a).
Proof. reflexivity. Qed.

Lemma call_throws {A} (e : event) (x : exn) (w : world) :
  call (A := A) e (throws x) w = (record [e] w, Throw x).
Proof. reflexivity. Qed.

Lemma record_record (t1 t2 : list event) (w : world) :
  record t2 (record t1 w) = record (t1 ++ t2) w.
Proof. unfold record; simpl. by rewrite app_assoc. Qed.

Lemma main_catch_eq (e : exn) (w : world) :
  main_catch e w = (record [Log LOG_LEVEL_ERROR (catch_message e)] w, Normal tt).
Proof. by destruct e. Qed.

(** One statement of a sequence: expose the first call and reduce. *)
Ltac step :=
  progress (try rewrite bind_eq; try rewrite emit_eq; try rewrite call_returns;
            try rewrite call_throws; try rewrite ret_eq; cbv beta iota).

(** ** The shape of [main] *)

(** Once the logger exists, [main] is its [try] statement followed by
    [return 0]. *)
Lemma process_eq (env : Env) (argv : list string) :
  logger_created env →
  process env argv =
  (try_catch (main_try env argv) main_catch ≫= λ _, return_ 0) (try_entry env).
Proof.
  intros Hlog. unfold process, main.
  cbv zeta. rewrite bind_eq. unfold logger_created in Hlog. rewrite Hlog.
  rewrite call_returns, bind_eq, emit_eq, record_record. reflexivity.
Qed.

(** How the process ends, by how the [try] block ends. *)
Lemma process_by_try (env : Env) (argv : list string) :
  logger_created env →
  process env argv =
  match main_try env argv (try_entry env) with
  | (w, Normal _) => (w, Return 0)
  | (w, Return code) => (w, Return code)
  | (w, Throw e) => (record [Log LOG_LEVEL_ERROR (catch_message e)] w, Return 0)
  | (w, Killed) => (w, Killed)
  end.
Proof.
  intros Hlog. rewrite (process_eq _ _ Hlog), bind_eq. unfold try_catch.
  destruct (main_try env argv (try_entry env)) as [w [[]|code|e|]]; try reflexivity.
  by rewrite main_catch_eq.
Qed.

(** Destroying the locals of the [try] block leaves the trace as it is. *)
Lemma leave_try_block_trace (w : world) : trace (leave_try_block w) = trace w.
Proof. unfold leave_try_block. by destruct (listening w). Qed.

Lemma leave_try_block_record (t : list event) (w : world) :
  leave_try_block (record t w) = record t (leave_try_block w).
Proof.
  destruct w as [t0 h m [server|] c]; reflexivity.
Qed.

(** How the process ends, by how the statements of the [try] block end. *)
Lemma process_by_block (env : Env) (argv : list string) :
  logger_created env →
  process env argv =
  match main_block env argv (try_entry env) with
  | (w, Normal _) => (leave_try_block w, Return 0)
  | (w, Return code) => (leave_try_block w, Return code)
  | (w, Throw e) =>
      (record [Log LOG_LEVEL_ERROR (catch_message e)] (leave_try_block w), Return 0)
  | (w, Killed) => (w, Killed)
  end.
Proof.
  intros Hlog. rewrite (process_by_try _ _ Hlog). unfold main_try.
  by destruct (main_block env argv (try_entry env)) as [w [[]|code|e|]].
Qed.

(** ** Lines 101-130 and 132-156, outcome by outcome *)

Lemma main_options_eq (env : Env) (argv : list string) (w : world) :
  main_options env argv w =
  match command_line_parser env argv (desc env) with
  | throws e => (record [CommandLineParse argv] w, Throw e)
  | returns parsed =>
      let vm := store parsed (desc env) ∅ in
      if negb (count vm cli.HELP =? 0) then
        (record [CommandLineParse argv; Cout (desc env)] w, Return 0)
      else
        match ReadCfgFromFileCommon env vm (desc env) with
        | throws e => (record [CommandLineParse argv; CfgFileCommon] w, Throw e)
        | returns vm1 =>
            match ReadCfgFromFile env vm1 (desc env) "wallet-api.cfg" with
            | throws e =>
                (record [CommandLineParse argv; CfgFileCommon;
                         CfgFile "wallet-api.cfg"] w, Throw e)
            | returns vm2 =>
                (record [CommandLineParse argv; CfgFileCommon;
                         CfgFile "wallet-api.cfg"] w,
                 Normal (vm2, notify (desc env) vm2 (options_declared env)))
            end
        end
  end.
Proof.
  unfold main_options. rewrite bind_eq.
  destruct (command_line_parser env argv (desc env)) as [parsed|e]; [|done].
  rewrite call_returns. cbv zeta.
  destruct (negb _).
  { by rewrite bind_eq, emit_eq, record_record. }
  rewrite bind_eq.
  destruct (ReadCfgFromFileCommon env _ (desc env)) as [vm1|e].
  2: { by rewrite call_throws, record_record. }
  rewrite call_returns, bind_eq.
  destruct (ReadCfgFromFile env vm1 (desc env) _) as [vm2|e].
  2: { by rewrite call_throws, !record_record. }
  by rewrite call_returns, ret_eq, !record_record.
Qed.

Lemma main_startup_eq (env : Env) (vm : variables_map) (options : options_t)
    (w : world) :
  let sec := days2sec env (logCleanupPeriod options) in
  let cleanup := CleanOldLogfiles LOG_FILES_DIR LOG_FILES_PREFIX sec in
  main_startup env vm options w =
  match clean_old_logfiles env LOG_FILES_DIR LOG_FILES_PREFIX sec with
  | throws e => (record [cleanup] w, Throw e)
  | returns _ =>
      match getRulesOptions env vm with
      | throws e => (record [cleanup; GetRulesOptions] w, Throw e)
      | returns _ =>
          match Rules_UpdateChecksum env with
          | throws e =>
              (record [cleanup; GetRulesOptions; RulesUpdateChecksum] w, Throw e)
          | returns _ =>
              let t := [cleanup; GetRulesOptions; RulesUpdateChecksum] ++ banner env in
              if count vm cli.NODE_ADDR =? 0 then
                (record (t ++ [Log LOG_LEVEL_ERROR
                                 [txt "node address should be specified"]]) w,
                 Return (-1))
              else
                match resolve env (nodeURI options) with
                | None =>
                    (record (t ++ [Resolve (nodeURI options);
                                   Log LOG_LEVEL_ERROR
                                     [txt "unable to resolve node address: `";
                                      txt (nodeURI options); txt "`"]]) w,
                     Return (-1))
                | Some node_addr =>
                    (record (t ++ [Resolve (nodeURI options)]) w, Normal node_addr)
                end
          end
      end
  end.
Proof.
  intros sec cleanup. unfold main_startup. fold sec. fold cleanup.
  rewrite bind_eq.
  destruct (clean_old_logfiles env _ _ sec) as [[]|e]; [|done].
  rewrite call_returns, bind_eq.
  destruct (getRulesOptions env vm) as [[]|e].
  2: { by rewrite call_throws, record_record. }
  rewrite call_returns, bind_eq.
  destruct (Rules_UpdateChecksum env) as [[]|e].
  2: { by rewrite call_throws, !record_record. }
  rewrite call_returns. unfold LOG_INFO, LOG_ERROR.
  repeat (rewrite bind_eq, emit_eq). rewrite !record_record. simpl.
  destruct (count vm cli.NODE_ADDR =? 0).
  { by rewrite bind_eq, emit_eq, record_record. }
  rewrite bind_eq, emit_eq, record_record.
  destruct (resolve env (nodeURI options)) as [a|].
  - by rewrite ret_eq.
  - by rewrite bind_eq, emit_eq, record_record.
Qed.

(** ** Lines 159-171 *)

Lemma main_serve_run (env : Env) (options : options_t) (node_addr : Address)
    (w : world) :
  serve_setup_ok env options →
  main_serve env options node_addr w =
  match Reactor_deliver (reactor_events env) (run_entry env options node_addr w) with
  | (w', Normal _) => (record [RunLeave; Log LOG_LEVEL_INFO [txt "Done"]] w', Normal tt)
  | (w', Return code) => (w', Return code)
  | (w', Throw e) => (w', Throw e)
  | (w', Killed) => (w', Killed)
  end.
Proof.
  intros (Hr & Hl & Hs).
  unfold main_serve, GracefulIntHandler_ctor, LOG_INFO, WalletService_ctor,
    new_WalletMap, Reactor_run.
  repeat step. rewrite Hr. repeat step. rewrite Hl. repeat step.
  rewrite Hs. do 6 step.
  match goal with
  | |- context [Reactor_deliver _ ?w1] =>
      assert (w1 = run_entry env options node_addr w) as ->
  end.
  { unfold run_entry, serve_setup. rewrite !record_record.
    unfold record, with_listening, with_wallet_maps, with_int_handler.
    cbn [trace int_handler wallet_maps listening clients].
    f_equal. by rewrite <- !app_assoc. }
  destruct (Reactor_deliver _ _) as [w' [[]|code|e|]]; try reflexivity.
  by rewrite !emit_eq, record_record.
Qed.

(** When one of the constructors throws, [run()] is not reached: the
    trace grows by a proper prefix of [serve_setup]. *)
Lemma main_serve_setup_fails (env : Env) (options : options_t) (node_addr : Address)
    (w : world) :
  ¬ serve_setup_ok env options →
  ∃ n e, (n < 7)%nat ∧
    trace (main_serve env options node_addr w).1
      = trace w ++ take (S n) (serve_setup env options) ∧
    (main_serve env options node_addr w).2 = Throw e.
Proof.
  intros Hno.
  unfold main_serve, GracefulIntHandler_ctor, LOG_INFO, WalletService_ctor,
    new_WalletMap, Reactor_run.
  repeat step.
  destruct (SafeReactor_create env) as [[]|e] eqn:Hr.
  2: { exists 0%nat, e. repeat step. simpl. split; [lia|done]. }
  repeat step.
  destruct (LogRotation_ctor env _ _) as [[]|e] eqn:Hl.
  2: { exists 3%nat, e. repeat step. simpl. split; [lia|].
       split; [|done]. by rewrite <- !app_assoc. }
  repeat step.
  destruct (WebSocketServer_ctor env _ _ _ _) as [[]|e] eqn:Hs.
  { destruct Hno. by repeat split. }
  exists 6%nat, e. repeat step. simpl. split; [lia|].
  split; [|done]. by rewrite <- !app_assoc.
Qed.

(** ** The reactor loop *)

Lemma dispatch_int_handler (ev : loop_event) (w : world) :
  int_handler (dispatch ev w).1 = int_handler w.
Proof.
  destruct ev as [wsSend|id update|id| |e]; simpl; repeat case_match; done.
Qed.

Lemma dispatch_listening (ev : loop_event) (w : world) :
  listening (dispatch ev w).1 = listening w.
Proof.
  destruct ev as [wsSend|id update|id| |e]; simpl; repeat case_match; done.
Qed.

(** One delivery appends at most one event, a handler constructed for an
    accepted connection or a handler destroyed. *)
Lemma dispatch_trace (ev : loop_event) (w : world) :
  ∃ t, trace (dispatch ev w).1 = trace w ++ t ∧
       Forall (λ e, client_event e = true) t ∧
       constructed t =
         match ev, listening w with
         | on_accept wsSend, Some server => [ReactorThread_onNewWSClient server wsSend]
         | _, _ => []
         end.
Proof.
  destruct ev as [wsSend|id update|id| |e]; simpl.
  - destruct (listening w) as [server|]; simpl.
    + eexists [_]. split; [done|]. split; [|done]. by repeat constructor.
    + exists []. by rewrite app_nil_r.
  - exists []. rewrite app_nil_r. by destruct (clients w !! id).
  - destruct (clients w !! id); simpl.
    + eexists [_]. split; [done|]. split; [|done]. by repeat constructor.
    + exists []. by rewrite app_nil_r.
  - exists []. rewrite app_nil_r. by destruct (int_handler w).
  - exists []. by rewrite app_nil_r.
Qed.

(** How one delivery ends. *)
Lemma dispatch_completion (ev : loop_event) (w : world) :
  (dispatch ev w).2 =
  match ev with
  | on_signal => if int_handler w then Normal false else Killed
  | on_exception e => Throw e
  | _ => Normal true
  end.
Proof.
  destruct ev as [wsSend|id update|id| |e]; simpl; repeat case_match; done.
Qed.

Lemma deliver_cons (ev : loop_event) (evs : list loop_event) (w : world) :
  Reactor_deliver (ev :: evs) w =
  match (dispatch ev w).2 with
  | Normal true => Reactor_deliver evs (dispatch ev w).1
  | Normal false => ((dispatch ev w).1, Normal tt)
  | Return code => ((dispatch ev w).1, Return code)
  | Throw e => ((dispatch ev w).1, Throw e)
  | Killed => ((dispatch ev w).1, Killed)
  end.
Proof.
  simpl. rewrite bind_eq. by destruct (dispatch ev w) as [w' [[]|code|e|]].
Qed.

Lemma deliver_int_handler (evs : list loop_event) (w : world) :
  int_handler (Reactor_deliver evs w).1 = int_handler w.
Proof.
  revert w. induction evs as [|ev evs IH]; intros w; [done|].
  rewrite deliver_cons.
  destruct (dispatch ev w).2 as [[]|code|e|] eqn:Hc; cbn [fst snd];
    rewrite ?IH; apply dispatch_int_handler.
Qed.

Lemma deliver_listening (evs : list loop_event) (w : world) :
  listening (Reactor_deliver evs w).1 = listening w.
Proof.
  revert w. induction evs as [|ev evs IH]; intros w; [done|].
  rewrite deliver_cons.
  destruct (dispatch ev w).2 as [[]|code|e|] eqn:Hc; cbn [fst snd];
    rewrite ?IH; apply dispatch_listening.
Qed.

(** With the interrupt handler installed, [run()] returns or lets an
    exception out; nothing kills the process and nothing returns from
    [main] in its stead. *)
Lemma deliver_completion (evs : list loop_event) (w : world) :
  int_handler w = true →
  (Reactor_deliver evs w).2 = Normal tt ∨ ∃ e, (Reactor_deliver evs w).2 = Throw e.
Proof.
  revert w. induction evs as [|ev evs IH]; intros w Hh; [by left|].
  rewrite deliver_cons, dispatch_completion.
  destruct ev as [wsSend|id update|id| |e]; try rewrite Hh; cbn [fst snd];
    try (apply IH; by rewrite dispatch_int_handler); eauto.
Qed.

(** A signal delivered while [run()] executes makes it return. *)
Lemma deliver_signal (evs1 evs2 : list loop_event) (w : world) :
  int_handler w = true →
  Forall (λ ev, is_exception ev = false) evs1 →
  (Reactor_deliver (evs1 ++ on_signal :: evs2) w).2 = Normal tt.
Proof.
  revert w. induction evs1 as [|ev evs1 IH]; intros w Hh Hno.
  - simpl app. rewrite deliver_cons, dispatch_completion. by rewrite Hh.
  - apply Forall_cons in Hno as [Hev Hno]. simpl app.
    rewrite deliver_cons, dispatch_completion.
    destruct ev as [wsSend|id update|id| |e]; try rewrite Hh; cbn [fst snd]; try done;
      apply IH; try done; by rewrite dispatch_int_handler.
Qed.

(** An exception escaping a callback leaves [run()]. *)
Lemma deliver_exception (evs1 evs2 : list loop_event) (e : exn) (w : world) :
  Forall (λ ev, ev ≠ on_signal ∧ is_exception ev = false) evs1 →
  (Reactor_deliver (evs1 ++ on_exception e :: evs2) w).2 = Throw e.
Proof.
  revert w. induction evs1 as [|ev evs1 IH]; intros w Hno.
  - simpl app. by rewrite deliver_cons, dispatch_completion.
  - apply Forall_cons in Hno as [[Hs Hev] Hno]. simpl app.
    rewrite deliver_cons, dispatch_completion.
    destruct ev as [wsSend|id update|id| |e']; cbn [fst snd]; try done; by apply IH.
Qed.

(** What [run()] adds to the trace: client events only, and one handler
    per accepted connection, built by the listening server. *)
Lemma deliver_trace (evs : list loop_event) (w : world) :
  ∃ t, trace (Reactor_deliver evs w).1 = trace w ++ t ∧
       Forall (λ e, client_event e = true) t ∧
       constructed t =
         match listening w with
         | Some server => ReactorThread_onNewWSClient server <$> accepted evs
         | None => []
         end.
Proof.
  revert w. induction evs as [|ev evs IH]; intros w.
  { exists []. simpl. rewrite app_nil_r. split; [done|]. split; [done|].
    by destruct (listening w). }
  destruct (dispatch_trace ev w) as (t1 & Ht1 & Hc1 & Hk1).
  destruct (IH (dispatch ev w).1) as (t2 & Ht2 & Hc2 & Hk2).
  rewrite dispatch_listening in Hk2.
  rewrite deliver_cons, dispatch_completion.
  destruct ev as [wsSend|id update|id| |e]; cbn [fst snd].
  1-3: exists (t1 ++ t2); rewrite Ht2, Ht1, app_assoc; split; [done|];
       split; [by apply Forall_app|];
       unfold constructed in *; rewrite omap_app, Hk1, Hk2;
       by destruct (listening w).
  - exists t1. destruct (int_handler w); cbn [fst snd]; (split; [done|]);
      (split; [done|]); rewrite Hk1; by destruct (listening w).
  - exists t1. split; [done|]. split; [done|].
    rewrite Hk1; by destruct (listening w).
Qed.

(** ** The [try] block, by phase *)

Lemma options_read_eq (env : Env) (argv : list string) (w w' : world)
    (x : variables_map * options_t) :
  main_options env argv w = (w', Normal x) → options_read env argv = Some x.
Proof.
  unfold options_read. rewrite !main_options_eq.
  destruct (command_line_parser env argv (desc env)) as [parsed|e]; [|done].
  cbv zeta. destruct (negb _); [done|].
  destruct (ReadCfgFromFileCommon env _ (desc env)) as [vm1|e]; [|done].
  destruct (ReadCfgFromFile env vm1 (desc env) _) as [vm2|e]; [|done].
  simpl. by intros [= _ <-].
Qed.

(** The [try] block either ends before line 159, having produced no
    serving event, by [return 0] (help), [return -1] (node address) or an
    exception; or it reaches line 159 with the options read, the old log
    files cleaned for the configured period and the node address
    resolved. *)
Lemma main_block_cases (env : Env) (argv : list string) (w : world) :
  (∃ t r, main_block env argv w = (record t w, r) ∧
          Forall (λ e, serving e = false) t ∧
          (r = Return 0 ∨ r = Return (-1) ∨ ∃ e, r = Throw e))
  ∨
  (∃ t vm options node_addr,
      options_read env argv = Some (vm, options) ∧
      main_block env argv w = main_serve env options node_addr (record t w) ∧
      Forall (λ e, serving e = false) t ∧
      CleanOldLogfiles LOG_FILES_DIR LOG_FILES_PREFIX
        (days2sec env (logCleanupPeriod options)) ∈ t ∧
      count vm cli.NODE_ADDR ≠ 0 ∧
      resolve env (nodeURI options) = Some node_addr).
Proof.
  unfold main_block. rewrite bind_eq.
  destruct (main_options env argv w) as [w1 r1] eqn:Hopt.
  pose proof Hopt as Hopt'. rewrite main_options_eq in Hopt'.
  destruct (command_line_parser env argv (desc env)) as [parsed|e].
  2: { apply pair_equal_spec in Hopt' as [<- <-]. left. eexists _, _. split; [done|].
       split; [by repeat constructor|eauto]. }
  cbv zeta in Hopt'. destruct (negb _).
  { apply pair_equal_spec in Hopt' as [<- <-]. left. eexists _, _. split; [done|].
    split; [by repeat constructor|eauto]. }
  destruct (ReadCfgFromFileCommon env _ (desc env)) as [vm1|e].
  2: { apply pair_equal_spec in Hopt' as [<- <-]. left. eexists _, _. split; [done|].
       split; [by repeat constructor|eauto]. }
  destruct (ReadCfgFromFile env vm1 (desc env) _) as [vm2|e].
  2: { apply pair_equal_spec in Hopt' as [<- <-]. left. eexists _, _. split; [done|].
       split; [by repeat constructor|eauto]. }
  apply pair_equal_spec in Hopt' as [<- <-]. apply options_read_eq in Hopt.
  remember (notify (desc env) vm2 (options_declared env)) as options eqn:Hoptions.
  cbv beta iota. rewrite bind_eq, main_startup_eq. cbv zeta.
  destruct (clean_old_logfiles env _ _ _) as [[]|e].
  2: { left. rewrite record_record. eexists _, _. split; [done|].
       split; [by repeat constructor|eauto]. }
  destruct (getRulesOptions env vm2) as [[]|e].
  2: { left. rewrite record_record. eexists _, _. split; [done|].
       split; [by repeat constructor|eauto]. }
  destruct (Rules_UpdateChecksum env) as [[]|e].
  2: { left. rewrite record_record. eexists _, _. split; [done|].
       split; [by repeat constructor|eauto]. }
  destruct (count vm2 cli.NODE_ADDR =? 0) eqn:Hcount.
  { left. rewrite record_record. eexists _, _. split; [done|].
    split; [by repeat constructor|eauto]. }
  destruct (resolve env (nodeURI options)) as [node_addr|] eqn:Hres.
  2: { left. rewrite record_record. eexists _, _. split; [done|].
       split; [by repeat constructor|eauto]. }
  right. rewrite record_record. eexists _, vm2, options, node_addr.
  split; [done|]. split; [done|]. split; [by repeat constructor|].
  split; [|split; [lia|done]].
  apply elem_of_app; right. apply elem_of_app; left. by left.
Qed.

(** ** The process, by phase *)

(** Without a logger [main] is left by the exception before its [try]. *)
Lemma process_no_logger (env : Env) (argv : list string) :
  ¬ logger_created env →
  ∃ e, process env argv =
       (record [LoggerCreate (logPrefix env) (system_complete env LOG_FILES_DIR)]
          initial, Throw e).
Proof.
  intros Hno. unfold process, main. cbv zeta. rewrite bind_eq.
  unfold logger_created in Hno.
  destruct (Logger_create env _ _) as [[]|e]; [done|]. by exists e.
Qed.

Lemma try_entry_trace (env : Env) :
  Forall (λ e, serving e = false) (trace (try_entry env)).
Proof. by repeat constructor. Qed.

Lemma not_serving_elem (t : list event) (e : event) :
  Forall (λ e, serving e = false) t → e ∈ t → serving e = false.
Proof. intros Hall Hin. by apply (proj1 (Forall_forall _ _) Hall). Qed.

Lemma not_entered_run (t : list event) :
  Forall (λ e, serving e = false) t → ¬ entered_run t.
Proof. intros Hall Hin. by apply (not_serving_elem _ _ Hall) in Hin. Qed.

(** A process whose [try] block stops before line 159 never produces a
    serving event. *)
Lemma process_stopped_trace (env : Env) (argv : list string) (t : list event)
    (r : completion unit) :
  logger_created env →
  main_block env argv (try_entry env) = (record t (try_entry env), r) →
  Forall (λ e, serving e = false) t →
  r = Return 0 ∨ r = Return (-1) ∨ (∃ e, r = Throw e) →
  Forall (λ e, serving e = false) (trace (process env argv).1).
Proof.
  intros Hlog Htry Ht Hr. rewrite (process_by_block _ _ Hlog), Htry.
  destruct Hr as [->|[->|[e ->]]]; cbn [fst]; unfold record; cbn [trace];
    rewrite leave_try_block_trace; cbn [trace];
    rewrite ?Forall_app; repeat split; try done; try apply try_entry_trace.
  by repeat constructor.
Qed.

(** The trace of a process that got through lines 159-168. *)
Lemma process_serving (env : Env) (argv : list string) (t : list event)
    (options : options_t) (node_addr : Address) :
  logger_created env →
  main_block env argv (try_entry env) =
    main_serve env options node_addr (record t (try_entry env)) →
  serve_setup_ok env options →
  let w := run_entry env options node_addr (record t (try_entry env)) in
  ∃ t' t'',
    trace (process env argv).1 = trace w ++ t' ++ t'' ∧
    (process env argv).1 =
      record t'' (leave_try_block (Reactor_deliver (reactor_events env) w).1) ∧
    Forall (λ e, client_event e = true) t' ∧
    constructed t' = ReactorThread_onNewWSClient (server_in options node_addr
                       (record t (try_entry env))) <$> accepted (reactor_events env) ∧
    ((t'' = [RunLeave; Log LOG_LEVEL_INFO [txt "Done"]] ∧
      (Reactor_deliver (reactor_events env) w).2 = Normal tt ∧
      (process env argv).2 = Return 0)
     ∨
     (∃ e, t'' = [Log LOG_LEVEL_ERROR (catch_message e)] ∧
           (Reactor_deliver (reactor_events env) w).2 = Throw e ∧
           (process env argv).2 = Return 0)).
Proof.
  intros Hlog Htry Hok w.
  rewrite (process_by_block _ _ Hlog), Htry, (main_serve_run _ _ _ _ Hok). fold w.
  destruct (deliver_trace (reactor_events env) w) as (t' & Ht' & Hc & Hk).
  change (listening w)
    with (Some (server_in options node_addr (record t (try_entry env)))) in Hk.
  destruct (deliver_completion (reactor_events env) w) as [Hr|[e Hr]]; [done| |].
  - destruct (Reactor_deliver (reactor_events env) w) as [w' r].
    cbn [fst snd] in *. subst r.
    exists t', [RunLeave; Log LOG_LEVEL_INFO [txt "Done"]]. cbn [fst snd].
    rewrite leave_try_block_record.
    split; [|by eauto 10].
    unfold record at 1. cbn [trace].
    by rewrite leave_try_block_trace, Ht', <- app_assoc.
  - destruct (Reactor_deliver (reactor_events env) w) as [w' r].
    cbn [fst snd] in *. subst r.
    exists t', [Log LOG_LEVEL_ERROR (catch_message e)]. cbn [fst snd].
    split; [|by eauto 10].
    unfold record at 1. cbn [trace].
    by rewrite leave_try_block_trace, Ht', <- app_assoc.
Qed.

(** The state in which the statements of the [try] block end, for a
    process that got through lines 159-168: the state in which [run()]
    stopped delivering, and what line 171 logged. *)
Lemma block_end_serving (env : Env) (argv : list string) (t : list event)
    (options : options_t) (node_addr : Address) :
  main_block env argv (try_entry env) =
    main_serve env options node_addr (record t (try_entry env)) →
  serve_setup_ok env options →
  let w := run_entry env options node_addr (record t (try_entry env)) in
  ∃ t'', block_end env argv = record t'' (Reactor_deliver (reactor_events env) w).1.
Proof.
  intros Htry Hok w. unfold block_end.
  rewrite Htry, (main_serve_run _ _ _ _ Hok). fold w.
  destruct (Reactor_deliver (reactor_events env) w) as [w' [[]|code|e|]];
    cbn [fst]; [by eexists| | |]; exists []; unfold record; rewrite app_nil_r;
    by destruct w'.
Qed.

(** A serving event in the trace tells that line 159 was reached. *)
Lemma serving_event_reaches (env : Env) (argv : list string) (e : event) :
  e ∈ trace (process env argv).1 → serving e = true →
  ∃ t vm options node_addr, reaches_serve env argv t vm options node_addr.
Proof.
  intros Hin Hserving.
  destruct (decide (logger_created env)) as [Hlog|Hno].
  2: { destruct (process_no_logger env argv Hno) as [x Hp]. rewrite Hp in Hin.
       simpl in Hin. apply list_elem_of_singleton in Hin. by subst e. }
  destruct (main_block_cases env argv (try_entry env))
    as [(t & r & Htry & Ht & Hr)|(t & vm & options & a & Hread & Htry & Ht & Hrest)].
  - pose proof (process_stopped_trace env argv t r Hlog Htry Ht Hr) as Hall.
    apply (not_serving_elem _ _ Hall) in Hin. congruence.
  - exists t, vm, options, a. by repeat split; try apply Hrest.
Qed.

(** At line 159 with a constructor that throws: the trace stops inside
    [serve_setup], the handler logs, [main] returns 0. *)
Lemma setup_failed_trace (env : Env) (argv : list string) (t : list event)
    (vm : variables_map) (options : options_t) (node_addr : Address) :
  reaches_serve env argv t vm options node_addr →
  ¬ serve_setup_ok env options →
  ∃ n e, (n < 7)%nat ∧
    trace (process env argv).1 =
      trace (try_entry env) ++ t ++ take (S n) (serve_setup env options)
        ++ [Log LOG_LEVEL_ERROR (catch_message e)] ∧
    (process env argv).2 = Return 0.
Proof.
  intros (Hlog & _ & Htry & _) Hno.
  destruct (main_serve_setup_fails env options node_addr (record t (try_entry env)) Hno)
    as (n & e & Hn & Htr & Hc).
  exists n, e. split; [done|].
  rewrite (process_by_block _ _ Hlog), Htry.
  destruct (main_serve _ _ _ _) as [w' r]. cbn [fst snd] in Htr, Hc. subst r.
  cbn [fst snd]. unfold record at 1. cbn [trace].
  rewrite leave_try_block_trace, Htr.
  unfold record. cbn [trace]. split; [|done]. by rewrite <- !app_assoc.
Qed.

Lemma serve_setup_no_run (env : Env) (options : options_t) :
  RunEnter ∉ serve_setup env options.
Proof. unfold serve_setup. rewrite !not_elem_of_cons. by repeat split; try apply not_elem_of_nil. Qed.

(** [run()] is entered only after lines 101-168 completed. *)
Lemma entered_run_reaches (env : Env) (argv : list string) :
  entered_run (trace (process env argv).1) →
  ∃ t vm options node_addr,
    reaches_serve env argv t vm options node_addr ∧ serve_setup_ok env options.
Proof.
  intros Hrun.
  destruct (serving_event_reaches env argv RunEnter Hrun eq_refl)
    as (t & vm & options & a & Hreach).
  exists t, vm, options, a. split; [done|].
  destruct (decide (serve_setup_ok env options)) as [Hok|Hno]; [done|exfalso].
  destruct (setup_failed_trace _ _ _ _ _ _ Hreach Hno) as (n & e & _ & Htr & _).
  unfold entered_run in Hrun. rewrite Htr in Hrun.
  destruct Hreach as (_ & _ & _ & Ht & _).
  rewrite !elem_of_app in Hrun. destruct Hrun as [Hin|[Hin|[Hin|Hin]]].
  - by apply (not_serving_elem _ _ (try_entry_trace env)) in Hin.
  - by apply (not_serving_elem _ _ Ht) in Hin.
  - apply subseteq_take in Hin. by apply serve_setup_no_run in Hin.
  - by apply list_elem_of_singleton in Hin.
Qed.

(** ** [po::store] *)

Lemma store_parsed_is_Some (vm : variables_map) (kv : cli.name * value) (k : cli.name) :
  is_Some (vm !! k) → is_Some (store_parsed vm kv !! k).
Proof.
  intros Hk. unfold store_parsed.
  destruct (vm !! kv.1) as [[x []]|] eqn:Hkv; try done;
    (destruct (decide (kv.1 = k)) as [->|Hne];
       [by rewrite lookup_insert_eq|by rewrite lookup_insert_ne]).
Qed.

Lemma store_parsed_here (vm : variables_map) (kv : cli.name * value) :
  is_Some (store_parsed vm kv !! kv.1).
Proof.
  unfold store_parsed.
  destruct (vm !! kv.1) as [[x []]|] eqn:Hkv; rewrite ?lookup_insert_eq, ?Hkv; eauto.
Qed.

Lemma foldl_store_parsed_is_Some (parsed : list (cli.name * value))
    (vm : variables_map) (k : cli.name) :
  is_Some (vm !! k) → is_Some (foldl store_parsed vm parsed !! k).
Proof.
  revert vm. induction parsed as [|kv parsed IH]; intros vm Hk; [done|].
  simpl. by apply IH, store_parsed_is_Some.
Qed.

Lemma foldl_store_parsed_elem (parsed : list (cli.name * value))
    (vm : variables_map) (k : cli.name) (x : value) :
  (k, x) ∈ parsed → is_Some (foldl store_parsed vm parsed !! k).
Proof.
  revert vm. induction parsed as [|kv parsed IH]; intros vm Hin.
  { by apply elem_of_nil in Hin. }
  apply elem_of_cons in Hin as [<-|Hin]; simpl; [|by apply IH].
  apply foldl_store_parsed_is_Some, (store_parsed_here vm (k, x)).
Qed.

Lemma store_default_Some (vm : variables_map) (d : option_description)
    (k : cli.name) (v : variable_value) :
  vm !! k = Some v → store_default vm d !! k = Some v.
Proof.
  intros Hk. unfold store_default.
  destruct (default_value d) as [x|]; [|done].
  destruct (vm !! long_name d) eqn:Hd; [done|].
  rewrite lookup_insert_ne; [done|congruence].
Qed.

Lemma foldl_store_default_Some (ds : list option_description) (vm : variables_map)
    (k : cli.name) (v : variable_value) :
  vm !! k = Some v → foldl store_default vm ds !! k = Some v.
Proof.
  revert vm. induction ds as [|d ds IH]; intros vm Hk; [done|].
  simpl. by apply IH, store_default_Some.
Qed.

(** An option given on the command line is counted. *)
Lemma store_count (parsed : list (cli.name * value)) (ds : list option_description)
    (k : cli.name) (x : value) :
  (k, x) ∈ parsed → count (store parsed ds ∅) k = 1.
Proof.
  intros Hin. unfold count, store.
  destruct (foldl_store_parsed_elem parsed ∅ k x Hin) as [v Hv].
  by rewrite (foldl_store_default_Some ds _ k v Hv).
Qed.

(** ** Exit status and exceptions *)

(** C9. Whenever one of the two catch clauses of main catches an exception,
    whatever statement of the try block threw it (option parsing, the
    configuration files, any startup step, the run), main goes on to its
    final return and the exit status is 0. *)
Theorem caught_exception_returns_zero (env : Env) (argv : list string)
    (w : world) (e : exn) :
  logger_created env →
  main_try env argv (try_entry env) = (w, Throw e) →
  exit_code (process env argv) = Some 0.
Proof.
  intros Hlog Htry. by rewrite (process_by_try _ _ Hlog), Htry.
Qed.

(** C3. Once the try block is entered, main always ends by returning a
    status: nothing thrown inside the block leaves main and nothing kills
    the process.  An exception thrown in the block is logged by the catch
    clause as the last thing the process does; in particular an exception
    that escapes a callback while run() executes. *)
Theorem main_catches_every_exception (env : Env) (argv : list string) :
  logger_created env →
  (∃ code, (process env argv).2 = Return code) ∧
  (∀ w e, main_try env argv (try_entry env) = (w, Throw e) →
          (process env argv).1 = record [Log LOG_LEVEL_ERROR (catch_message e)] w) ∧
  (∀ evs1 e evs2,
      entered_run (trace (process env argv).1) →
      reactor_events env = evs1 ++ on_exception e :: evs2 →
      Forall (λ ev, ev ≠ on_signal ∧ is_exception ev = false) evs1 →
      last (trace (process env argv).1) = Some (Log LOG_LEVEL_ERROR (catch_message e))).
Proof.
  intros Hlog. split; [|split].
  - destruct (main_block_cases env argv (try_entry env))
      as [(t & r & Htry & Ht & Hr)|(t & vm & options & a & Hread & Htry & Ht & Hrest)].
    + rewrite (process_by_block _ _ Hlog), Htry.
      destruct Hr as [->|[->|[e ->]]]; eauto.
    + assert (reaches_serve env argv t vm options a) as Hreach.
      { by repeat split; try apply Hrest. }
      destruct (decide (serve_setup_ok env options)) as [Hok|Hno].
      * destruct (process_serving env argv t options a Hlog Htry Hok)
          as (t' & t'' & _ & _ & _ & _ & [(_ & _ & Hc)|(e & _ & _ & Hc)]); eauto.
      * destruct (setup_failed_trace _ _ _ _ _ _ Hreach Hno) as (n & e & _ & _ & Hc).
        eauto.
  - intros w e Htry. by rewrite (process_by_try _ _ Hlog), Htry.
  - intros evs1 e evs2 Hrun Hevs Hquiet.
    destruct (entered_run_reaches env argv Hrun)
      as (t & vm & options & a & Hreach & Hok).
    destruct Hreach as (_ & _ & Htry & _).
    destruct (process_serving env argv t options a Hlog Htry Hok)
      as (t' & t'' & Htr & _ & _ & _ & [(_ & Hn & _)|(e' & -> & He' & _)]).
    + rewrite Hevs, deliver_exception in Hn; done.
    + rewrite Hevs, deliver_exception in He'; [|done]. injection He' as <-.
      rewrite Htr, !app_assoc. apply last_snoc.
Qed.

(** C1 (the code departs from the claim). When the command line does not
    parse, the parser's exception is caught by main's own handler: the
    process logs it and returns 0, not a non-zero status.  The reactor is
    never created and run() never entered. *)
Theorem parse_failure_returns_zero (env : Env) (argv : list string) (e : exn) :
  logger_created env →
  command_line_parser env argv (desc env) = throws e →
  process env argv =
    (record [CommandLineParse argv; Log LOG_LEVEL_ERROR (catch_message e)]
       (try_entry env), Return 0) ∧
  exit_code (process env argv) = Some 0 ∧
  ¬ entered_run (trace (process env argv).1).
Proof.
  intros Hlog Hparse.
  assert (process env argv =
          (record [CommandLineParse argv; Log LOG_LEVEL_ERROR (catch_message e)]
             (try_entry env), Return 0)) as ->.
  { rewrite (process_by_block _ _ Hlog).
    unfold main_block. rewrite bind_eq, main_options_eq, Hparse.
    reflexivity. }
  split; [done|]. split; [done|].
  apply not_entered_run. by repeat constructor.
Qed.

(** C4. With the help option on the command line, main prints the option
    description and returns 0; nothing else happens after the command line
    is parsed, so no configuration is read and run() is not entered. *)
Theorem help_prints_description_and_returns_zero (env : Env) (argv : list string)
    (parsed : list (cli.name * value)) (x : value) :
  logger_created env →
  command_line_parser env argv (desc env) = returns parsed →
  (cli.HELP, x) ∈ parsed →
  process env argv =
    (record [CommandLineParse argv; Cout (desc env)] (try_entry env), Return 0) ∧
  exit_code (process env argv) = Some 0 ∧
  ¬ entered_run (trace (process env argv).1).
Proof.
  intros Hlog Hparse Hhelp.
  assert (process env argv =
          (record [CommandLineParse argv; Cout (desc env)] (try_entry env), Return 0))
    as ->.
  { rewrite (process_by_block _ _ Hlog).
    unfold main_block. rewrite bind_eq, main_options_eq, Hparse. cbv zeta.
    rewrite (store_count parsed (desc env) cli.HELP x Hhelp). reflexivity. }
  split; [done|]. split; [done|].
  apply not_entered_run. by repeat constructor.
Qed.

(** ** The node address *)

Lemma options_read_inv (env : Env) (argv : list string) (vm : variables_map)
    (options : options_t) :
  options_read env argv = Some (vm, options) →
  options = notify (desc env) vm (options_declared env) ∧
  ∀ w, main_options env argv w =
       (record [CommandLineParse argv; CfgFileCommon; CfgFile "wallet-api.cfg"] w,
        Normal (vm, options)).
Proof.
  unfold options_read. rewrite main_options_eq. intros Hread.
  assert (∀ w, main_options env argv w =
               (record [CommandLineParse argv; CfgFileCommon; CfgFile "wallet-api.cfg"] w,
                Normal (vm, options)) ∧
               options = notify (desc env) vm (options_declared env)) as H.
  { intros w. rewrite main_options_eq.
    destruct (command_line_parser env argv (desc env)) as [parsed|e]; [|done].
    cbv zeta in *. destruct (negb _); [done|].
    destruct (ReadCfgFromFileCommon env _ (desc env)) as [vm1|e]; [|done].
    destruct (ReadCfgFromFile env vm1 (desc env) _) as [vm2|e]; [|done].
    simpl in Hread. by injection Hread as <- <-. }
  split; [apply (H initial)|apply H].
Qed.

Lemma constructed_app (t1 t2 : list event) :
  constructed (t1 ++ t2) = constructed t1 ++ constructed t2.
Proof. apply omap_app. Qed.

Lemma constructed_no_client (t : list event) :
  Forall (λ e, client_event e = false) t → constructed t = [].
Proof.
  induction 1 as [|e t He _ IH]; [done|].
  destruct e; try discriminate He; exact IH.
Qed.

Lemma constructed_not_serving (t : list event) :
  Forall (λ e, serving e = false) t → constructed t = [].
Proof.
  intros Ht. apply constructed_no_client. eapply Forall_impl; [apply Ht|].
  by intros [].
Qed.

(** C2. Suppose the node address is absent from the variables map or does
    not resolve, whenever the options get read at all.  Then the reactor is
    never created, run() never entered and no handler constructed; and when
    the startup steps up to the check complete, main logs an error as the
    last thing it does and returns -1. *)
Theorem node_address_required (env : Env) (argv : list string) :
  (∀ vm options, options_read env argv = Some (vm, options) →
     count vm cli.NODE_ADDR = 0 ∨ resolve env (nodeURI options) = None) →
  ((ReactorCreate ∉ trace (process env argv).1) ∧
   (RunEnter ∉ trace (process env argv).1) ∧
   constructed (trace (process env argv).1) = []) ∧
  (∀ vm options,
     logger_created env →
     options_read env argv = Some (vm, options) →
     startup_calls_return env vm options →
     exit_code (process env argv) = Some (-1) ∧
     ∃ msg, last (trace (process env argv).1) = Some (Log LOG_LEVEL_ERROR msg)).
Proof.
  intros Hnode.
  assert (Forall (λ e, serving e = false) (trace (process env argv).1)) as Hquiet.
  { apply Forall_forall. intros e Hin. destruct (serving e) eqn:Hs; [exfalso|done].
    destruct (serving_event_reaches env argv e Hin Hs)
      as (t & vm & options & a & _ & Hread & _ & _ & _ & Hcount & Hres).
    destruct (Hnode vm options Hread); congruence. }
  split.
  - split; [|split].
    + intros Hin. by apply (not_serving_elem _ _ Hquiet) in Hin.
    + intros Hin. by apply (not_serving_elem _ _ Hquiet) in Hin.
    + by apply constructed_not_serving.
  - intros vm options Hlog Hread (Hclean & Hrules & Hsum).
    destruct (options_read_inv env argv vm options Hread) as [_ Hopt].
    rewrite (process_by_block _ _ Hlog). unfold main_block.
    rewrite bind_eq, Hopt. cbv beta iota.
    rewrite bind_eq, main_startup_eq. cbv zeta. rewrite Hclean, Hrules, Hsum.
    destruct (Hnode vm options Hread) as [Hcount|Hres].
    + rewrite Hcount. simpl. split; [done|]. by eexists.
    + destruct (count vm cli.NODE_ADDR =? 0); simpl.
      * split; [done|]. by eexists.
      * rewrite Hres. simpl. split; [done|]. by eexists.
Qed.

(** ** Shutdown *)

Lemma serve_setup_int_handler (env : Env) (options : options_t) :
  IntHandlerInstall ∈ serve_setup env options.
Proof. unfold serve_setup. do 2 right. left. Qed.

(** C8. In every run of the process that enters run(), the interrupt
    handler was installed before; and if a signal is then delivered while
    run() executes (no exception having left a callback before it), run()
    returns and the process exits with status 0. *)
Theorem signal_handler_then_clean_shutdown (env : Env) (argv : list string) :
  entered_run (trace (process env argv).1) →
  precedes IntHandlerInstall RunEnter (trace (process env argv).1) ∧
  (∀ evs1 evs2,
     reactor_events env = evs1 ++ on_signal :: evs2 →
     Forall (λ ev, is_exception ev = false) evs1 →
     RunLeave ∈ trace (process env argv).1 ∧
     exit_code (process env argv) = Some 0).
Proof.
  intros Hrun.
  destruct (entered_run_reaches env argv Hrun)
    as (t & vm & options & a & Hreach & Hok).
  destruct Hreach as (Hlog & _ & Htry & Ht & _).
  destruct (process_serving env argv t options a Hlog Htry Hok)
    as (t' & t'' & Htr & _ & _ & _ & Hend).
  split.
  - exists (trace (try_entry env) ++ t ++ serve_setup env options), (t' ++ t'').
    split; [|split].
    + rewrite Htr. simpl. by rewrite <- !app_assoc.
    + rewrite !not_elem_of_app. split; [|split].
      * intros Hin. by apply (not_serving_elem _ _ (try_entry_trace env)) in Hin.
      * intros Hin. by apply (not_serving_elem _ _ Ht) in Hin.
      * apply serve_setup_no_run.
    + rewrite !elem_of_app. right. right. apply serve_setup_int_handler.
  - intros evs1 evs2 Hevs Hquiet.
    destruct Hend as [(-> & _ & Hc)|(e & _ & He & _)].
    + split.
      * rewrite Htr, !elem_of_app. right. right. by left.
      * unfold exit_code. by rewrite Hc.
    + rewrite Hevs, deliver_signal in He; done.
Qed.

(** ** Handlers *)

(** The handlers a process constructs, once it has got through lines
    159-168: one per accepted connection, built by the [server] of line 168. *)
Lemma process_constructed (env : Env) (argv : list string) (t : list event)
    (vm : variables_map) (options : options_t) (node_addr : Address) :
  reaches_serve env argv t vm options node_addr →
  serve_setup_ok env options →
  constructed (trace (process env argv).1) =
    ReactorThread_onNewWSClient (server_in options node_addr (record t (try_entry env)))
      <$> accepted (reactor_events env).
Proof.
  intros (Hlog & _ & Htry & Ht & _) Hok.
  destruct (process_serving env argv t options node_addr Hlog Htry Hok)
    as (t' & t'' & Htr & _ & _ & Hk & Hend).
  rewrite Htr.
  change (trace (run_entry env options node_addr (record t (try_entry env))))
    with ((trace (try_entry env) ++ t) ++ serve_setup env options ++ [RunEnter]).
  rewrite !constructed_app, Hk.
  rewrite (constructed_not_serving _ (try_entry_trace env)).
  rewrite (constructed_not_serving t Ht).
  rewrite (constructed_no_client (serve_setup env options)) by (by repeat constructor).
  rewrite (constructed_no_client [RunEnter]) by (by repeat constructor).
  rewrite (constructed_no_client t'').
  - cbn [app]. apply app_nil_r.
  - destruct Hend as [(-> & _)|(e & -> & _)]; by repeat constructor.
Qed.

(** The server alive when the statements of the [try] block end is the
    [server] of line 168. *)
Lemma block_end_listening (env : Env) (argv : list string) (t : list event)
    (vm : variables_map) (options : options_t) (node_addr : Address) :
  reaches_serve env argv t vm options node_addr →
  serve_setup_ok env options →
  listening (block_end env argv) =
    Some (server_in options node_addr (record t (try_entry env))).
Proof.
  intros (_ & _ & Htry & _) Hok.
  destruct (block_end_serving env argv t options node_addr Htry Hok) as [t'' ->].
  unfold record. cbn [listening]. by rewrite deliver_listening.
Qed.

(** One delivery keeps the handlers bound to the server's map, keeps the
    set of wallet maps alive, and touches no other map than the server's. *)
Lemma dispatch_registry (ev : loop_event) (w : world) (server : WalletService) :
  listening w = Some server →
  (∀ id h, clients w !! id = Some h → sc_walletMap h = _walletMap server) →
  (∀ id h, clients (dispatch ev w).1 !! id = Some h →
           sc_walletMap h = _walletMap server) ∧
  dom (wallet_maps (dispatch ev w).1) = dom (wallet_maps w) ∧
  (∀ l, l ≠ _walletMap server →
        wallet_maps (dispatch ev w).1 !! l = wallet_maps w !! l).
Proof.
  intros Hl Hinv.
  destruct ev as [wsSend|id update|id| |e]; simpl.
  - rewrite Hl. simpl. split; [|done]. intros id h.
    rewrite lookup_insert_Some. intros [[_ <-]|[_ Hh]]; [done|by eapply Hinv].
  - destruct (clients w !! id) as [h0|] eqn:Hid; simpl; [|done].
    split; [done|]. split; [by rewrite dom_alter_L|].
    intros l Hne. apply lookup_alter_ne. rewrite (Hinv id h0 Hid). congruence.
  - destruct (clients w !! id) as [h0|] eqn:Hid; simpl; [|done].
    split; [|done]. intros id' h. rewrite lookup_delete_Some.
    intros [_ Hh]. by eapply Hinv.
  - by destruct (int_handler w).
  - done.
Qed.

Lemma deliver_registry (evs : list loop_event) (w : world) (server : WalletService) :
  listening w = Some server →
  (∀ id h, clients w !! id = Some h → sc_walletMap h = _walletMap server) →
  (∀ id h, clients (Reactor_deliver evs w).1 !! id = Some h →
           sc_walletMap h = _walletMap server) ∧
  dom (wallet_maps (Reactor_deliver evs w).1) = dom (wallet_maps w) ∧
  (∀ l, l ≠ _walletMap server →
        wallet_maps (Reactor_deliver evs w).1 !! l = wallet_maps w !! l).
Proof.
  revert w. induction evs as [|ev evs IH]; intros w Hl Hinv; [done|].
  destruct (dispatch_registry ev w server Hl Hinv) as (Hinv' & Hdom' & Hrest').
  rewrite deliver_cons.
  destruct (dispatch ev w).2 as [[]|code|e|]; simpl; try done.
  destruct (IH (dispatch ev w).1) as (Hinv'' & Hdom'' & Hrest''); [|done|].
  { by rewrite dispatch_listening. }
  split; [done|]. split; [by rewrite Hdom''|].
  intros l Hne. by rewrite Hrest'', Hrest'.
Qed.

(** Accepting or closing a connection, that is constructing or destroying
    a handler, leaves every wallet map as it is. *)
Lemma dispatch_connection_event (ev : loop_event) (w : world) :
  connection_event ev = true → wallet_maps (dispatch ev w).1 = wallet_maps w.
Proof.
  destruct ev as [wsSend|id update|id| |e]; simpl; try done; intros _.
  - by destruct (listening w).
  - by destruct (clients w !! id).
Qed.

Lemma deliver_connection_events (evs : list loop_event) (w : world) :
  Forall (λ ev, connection_event ev = true) evs →
  wallet_maps (Reactor_deliver evs w).1 = wallet_maps w.
Proof.
  intros Hall. revert w. induction Hall as [|ev evs Hev _ IH]; intros w; [done|].
  rewrite deliver_cons, dispatch_completion.
  destruct ev as [wsSend|id update|id| |e]; try discriminate Hev; cbn [fst snd];
    by rewrite IH, dispatch_connection_event.
Qed.

(** What is left of the server when [main] has returned, for a process
    that got through lines 159-168: nothing. *)
Lemma process_server_destroyed (env : Env) (argv : list string) (t : list event)
    (vm : variables_map) (options : options_t) (node_addr : Address) :
  reaches_serve env argv t vm options node_addr →
  serve_setup_ok env options →
  listening (process env argv).1 = None ∧
  wallet_maps (process env argv).1 = ∅ ∧
  clients (process env argv).1 = ∅.
Proof.
  intros (Hlog & _ & Htry & _) Hok.
  destruct (process_serving env argv t options node_addr Hlog Htry Hok)
    as (t' & t'' & _ & Hw & _).
  set (w0 := record t (try_entry env)) in *.
  set (w := run_entry env options node_addr w0) in *.
  set (server := server_in options node_addr w0) in *.
  destruct (deliver_registry (reactor_events env) w server) as (_ & Hdom & _);
    [done|done|].
  pose proof (deliver_listening (reactor_events env) w) as Hl.
  change (listening w) with (Some server) in Hl.
  rewrite Hw. unfold record, leave_try_block. rewrite Hl.
  cbn [listening wallet_maps clients GracefulIntHandler_dtor with_int_handler
       WalletService_dtor WebSocketServer_dtor with_listening with_clients
       with_wallet_maps].
  split; [done|]. split; [|done].
  apply dom_empty_iff_L. rewrite dom_delete_L, Hdom.
  unfold w, run_entry, server, server_in. cbn [wallet_maps _walletMap].
  change (wallet_maps w0) with (∅ : gmap loc WalletMap).
  rewrite dom_insert_L, dom_empty_L. set_solver.
Qed.

(** C5. Whatever server object listens and whatever arrives while run()
    executes, every accepted connection gets exactly one handler: the
    handlers constructed are, in order, one per accepted connection, each
    holding that connection's send function and the address of that
    server's wallet map (and its asset flag and node address).  In a
    process that enters run() the server is the one line 168 constructed,
    alive until the try block is left, and these are all the handlers the
    process constructs. *)
Theorem one_handler_per_accepted_connection (env : Env) (argv : list string) :
  (∀ (this : WalletService) (w : world) (evs : list loop_event),
     listening w = Some this →
     ∃ t, trace (Reactor_deliver evs w).1 = trace w ++ t ∧
          Forall2 (λ h wsSend,
                     sc_wsSend h = wsSend ∧ sc_walletMap h = _walletMap this ∧
                     sc_withAssets h = _withAssets this ∧
                     sc_nodeAddr h = _nodeAddr this)
            (constructed t) (accepted evs)) ∧
  (entered_run (trace (process env argv).1) →
   ∃ server,
     listening (block_end env argv) = Some server ∧
     (_walletMap server ∈ dom (wallet_maps (block_end env argv))) ∧
     constructed (trace (process env argv).1) =
       ReactorThread_onNewWSClient server <$> accepted (reactor_events env) ∧
     Forall2 (λ h wsSend,
                sc_wsSend h = wsSend ∧ sc_walletMap h = _walletMap server ∧
                sc_withAssets h = _withAssets server ∧
                sc_nodeAddr h = _nodeAddr server)
       (constructed (trace (process env argv).1)) (accepted (reactor_events env))).
Proof.
  split.
  - intros this w evs Hl.
    destruct (deliver_trace evs w) as (t & Ht & _ & Hk).
    exists t. split; [done|]. rewrite Hk, Hl.
    apply Forall2_fmap_l, Forall_Forall2_diag, Forall_forall. by intros wsSend _.
  - intros Hrun.
    destruct (entered_run_reaches env argv Hrun)
      as (t & vm & options & a & Hreach & Hok).
    exists (server_in options a (record t (try_entry env))).
    split; [by eapply block_end_listening|]. split.
    + destruct Hreach as (_ & _ & Htry & _).
      destruct (block_end_serving env argv t options a Htry Hok) as [t'' ->].
      set (w0 := record t (try_entry env)) in *.
      destruct (deliver_registry (reactor_events env) (run_entry env options a w0)
                  (server_in options a w0)) as (_ & Hdom & _); [done|done|].
      unfold record. cbn [wallet_maps]. rewrite Hdom.
      unfold run_entry, server_in. cbn [wallet_maps _walletMap].
      rewrite dom_insert_L. set_solver.
    + rewrite (process_constructed _ _ _ _ _ _ Hreach Hok). split; [done|].
      apply Forall2_fmap_l, Forall_Forall2_diag, Forall_forall. by intros wsSend _.
Qed.

(** C6. Whatever server object listens and whatever arrives while run()
    executes: every handler constructed, and every handler alive
    afterwards, holds the address of that server's wallet map; the wallet
    maps alive stay alive; no other map than the server's is written to;
    and connections coming and going (handlers constructed and destroyed)
    leave every wallet map and its entries untouched.  In a process that
    enters run() there is one wallet map, the member of the server line
    168 constructed: it is alive, and the server with it, when the
    statements of the try block end, whatever connections came and went,
    and it is destroyed with the server when the block is left. *)
Theorem handlers_share_the_service_registry (env : Env) (argv : list string) :
  (∀ (this : WalletService) (w : world) (evs : list loop_event),
     listening w = Some this →
     (∀ id h, clients w !! id = Some h → sc_walletMap h = _walletMap this) →
     (∃ t, trace (Reactor_deliver evs w).1 = trace w ++ t ∧
           Forall (λ h, sc_walletMap h = _walletMap this) (constructed t)) ∧
     (∀ id h, clients (Reactor_deliver evs w).1 !! id = Some h →
              sc_walletMap h = _walletMap this) ∧
     dom (wallet_maps (Reactor_deliver evs w).1) = dom (wallet_maps w) ∧
     (∀ l, l ≠ _walletMap this →
           wallet_maps (Reactor_deliver evs w).1 !! l = wallet_maps w !! l)) ∧
  (∀ (evs : list loop_event) (w : world),
     Forall (λ ev, connection_event ev = true) evs →
     wallet_maps (Reactor_deliver evs w).1 = wallet_maps w) ∧
  (entered_run (trace (process env argv).1) →
   ∃ server,
     listening (block_end env argv) = Some server ∧
     dom (wallet_maps (block_end env argv)) = {[ _walletMap server ]} ∧
     Forall (λ h, sc_walletMap h = _walletMap server)
       (constructed (trace (process env argv).1)) ∧
     (∀ id h, clients (block_end env argv) !! id = Some h →
              sc_walletMap h = _walletMap server) ∧
     listening (process env argv).1 = None ∧
     wallet_maps (process env argv).1 = ∅).
Proof.
  split; [|split].
  - intros this w evs Hl Hinv.
    destruct (deliver_registry evs w this Hl Hinv) as (Hinv' & Hdom & Hrest).
    split; [|done].
    destruct (deliver_trace evs w) as (t & Ht & _ & Hk).
    exists t. split; [done|]. rewrite Hk, Hl.
    apply Forall_fmap, Forall_forall. by intros wsSend _.
  - apply deliver_connection_events.
  - intros Hrun.
    destruct (entered_run_reaches env argv Hrun)
      as (t & vm & options & a & Hreach & Hok).
    pose proof (process_constructed _ _ _ _ _ _ Hreach Hok) as Hk.
    pose proof (block_end_listening _ _ _ _ _ _ Hreach Hok) as Hlisten.
    destruct (process_server_destroyed _ _ _ _ _ _ Hreach Hok) as (Hnone & Hgone & _).
    destruct Hreach as (Hlog & _ & Htry & Ht & _).
    destruct (block_end_serving env argv t options a Htry Hok) as [t'' Hend].
    set (w0 := record t (try_entry env)) in *.
    set (w := run_entry env options a w0) in *.
    set (server := server_in options a w0) in *.
    destruct (deliver_registry (reactor_events env) w server) as (Hinv & Hdom & _);
      [done|done|].
    exists server. split; [done|]. split; [|split; [|split; [|done]]].
    + rewrite Hend. unfold record. cbn [wallet_maps]. rewrite Hdom.
      unfold w, run_entry, server, server_in. cbn [wallet_maps _walletMap].
      change (wallet_maps w0) with (∅ : gmap loc WalletMap).
      rewrite dom_insert_L, dom_empty_L. set_solver.
    + rewrite Hk. apply Forall_fmap, Forall_forall. by intros wsSend _.
    + intros id h. rewrite Hend. unfold record. cbn [clients]. apply Hinv.
Qed.

(** ** The poll period *)

(** C7 (the code departs from the claim). The poll period parsed into
    options.pollPeriod_ms is never read again: whatever value the member
    holds, lines 132-171 of main do the same, so nothing is coerced and no
    handler or server ever receives the configured period. *)
Theorem poll_period_never_read (env : Env) (vm : variables_map)
    (options : options_t) (p : Z) :
  pollPeriod_ms (assign m_pollPeriod_ms (nonneg_u32 p) options) = p ∧
  main_startup env vm (assign m_pollPeriod_ms (nonneg_u32 p) options)
    = main_startup env vm options ∧
  (∀ node_addr,
     main_serve env (assign m_pollPeriod_ms (nonneg_u32 p) options) node_addr
       = main_serve env options node_addr).
Proof.
  (* every use of [options] in lines 132-171 projects another member *)
  split; [reflexivity|]. split; [reflexivity|]. intros node_addr. reflexivity.
Qed.

(** ** Log rotation and retention *)

Lemma store_parsed_other (vm : variables_map) (kv : cli.name * value) (k : cli.name) :
  kv.1 ≠ k → store_parsed vm kv !! k = vm !! k.
Proof.
  intros Hne. unfold store_parsed.
  destruct (vm !! kv.1) as [[x []]|]; try done; by rewrite lookup_insert_ne.
Qed.

Lemma foldl_store_parsed_absent (parsed : list (cli.name * value))
    (vm : variables_map) (k : cli.name) :
  k ∉ parsed.*1 → foldl store_parsed vm parsed !! k = vm !! k.
Proof.
  revert vm. induction parsed as [|kv parsed IH]; intros vm Hk; [done|].
  rewrite fmap_cons, not_elem_of_cons in Hk. destruct Hk as [Hne Hk].
  simpl. rewrite IH; [|done]. by apply store_parsed_other.
Qed.

Lemma store_default_other (vm : variables_map) (d : option_description) (k : cli.name) :
  long_name d ≠ k → store_default vm d !! k = vm !! k.
Proof.
  intros Hne. unfold store_default.
  destruct (default_value d) as [x|]; [|done].
  destruct (vm !! long_name d); [done|]. by rewrite lookup_insert_ne.
Qed.

(** Unless given, the cleanup period enters the map as the default 5. *)
Lemma store_cleanup_default (env : Env) (parsed : list (cli.name * value)) :
  cli.LOG_CLEANUP_DAYS ∉ parsed.*1 →
  store parsed (desc env) ∅ !! cli.LOG_CLEANUP_DAYS
    = Some {| as_value := u32 5; defaulted := true |}.
Proof.
  intros Habsent. unfold store, desc, general_options.
  set (vm := foldl store_parsed ∅ parsed).
  assert (vm !! cli.LOG_CLEANUP_DAYS = None) as Hvm.
  { unfold vm. by rewrite foldl_store_parsed_absent. }
  simpl. apply foldl_store_default_Some.
  do 3 apply store_default_Some.
  unfold store_default at 1. cbn [default_value long_name].
  rewrite !store_default_other by done. rewrite Hvm.
  apply lookup_insert_eq.
Qed.

Lemma assign_logCleanupPeriod (m : member) (x : value) (o : options_t) :
  m ≠ m_logCleanupPeriod → logCleanupPeriod (assign m x o) = logCleanupPeriod o.
Proof. by destruct m, x. Qed.

Lemma notify_one_logCleanupPeriod (vm : variables_map) (o : options_t)
    (d : option_description) :
  store_to d ≠ Some m_logCleanupPeriod →
  logCleanupPeriod (notify_one vm o d) = logCleanupPeriod o.
Proof.
  intros Hne. unfold notify_one.
  destruct (store_to d) as [m|]; [|done].
  destruct (vm !! long_name d); [|done].
  apply assign_logCleanupPeriod. congruence.
Qed.

Lemma foldl_notify_logCleanupPeriod (vm : variables_map) (ds : list option_description)
    (o : options_t) :
  Forall (λ d, store_to d ≠ Some m_logCleanupPeriod) ds →
  logCleanupPeriod (foldl (notify_one vm) o ds) = logCleanupPeriod o.
Proof.
  intros Hds. revert o. induction Hds as [|d ds Hd _ IH]; intros o; [done|].
  simpl. rewrite IH. by apply notify_one_logCleanupPeriod.
Qed.

(** [notify] writes the cleanup period of the map to the struct. *)
Lemma notify_logCleanupPeriod (env : Env) (vm : variables_map) (o : options_t)
    (n : Z) (b : bool) :
  rules_options_foreign env →
  vm !! cli.LOG_CLEANUP_DAYS = Some {| as_value := u32 n; defaulted := b |} →
  logCleanupPeriod (notify (desc env) vm o) = n.
Proof.
  intros Hrules Hvm. unfold notify, desc, general_options. simpl.
  rewrite foldl_notify_logCleanupPeriod.
  2: { eapply Forall_impl; [apply Hrules|]. simpl. congruence. }
  rewrite !notify_one_logCleanupPeriod by done.
  unfold notify_one at 1. simpl. by rewrite Hvm.
Qed.

Lemma serve_setup_rotation (env : Env) (options : options_t) (p c : Z) :
  LogRotationStart p c ∈ serve_setup env options →
  p = LOG_ROTATION_PERIOD_SEC ∧ c = days2sec env (logCleanupPeriod options).
Proof.
  unfold serve_setup. rewrite !elem_of_cons, elem_of_nil.
  intros [H|[H|[H|[H|[H|[H|[H|[]]]]]]]]; try discriminate H.
  by injection H as -> ->.
Qed.

Lemma client_event_elem (t : list event) (e : event) :
  Forall (λ e, client_event e = true) t → e ∈ t → client_event e = true.
Proof. intros Hall Hin. by apply (proj1 (Forall_forall _ _) Hall). Qed.

(** C10. The rotation period is the constant 43200 seconds (12 hours):
    every log rotation any process starts has that period, whatever the
    command line and configuration.  Its retention argument is days2sec of
    the logCleanupPeriod member, the very value the old log files were
    cleaned with at startup.  That member is the cleanup-days option of the
    variables map, a whole number of days, which is 5 by default. *)
Theorem log_rotation_and_retention (env : Env) :
  rules_options_foreign env →
  LOG_ROTATION_PERIOD_SEC = 43200 ∧
  (∀ argv p c,
     LogRotationStart p c ∈ trace (process env argv).1 →
     p = 43200 ∧
     ∃ vm options,
       options_read env argv = Some (vm, options) ∧
       c = days2sec env (logCleanupPeriod options) ∧
       CleanOldLogfiles LOG_FILES_DIR LOG_FILES_PREFIX c ∈ trace (process env argv).1) ∧
  (∀ argv vm options n b,
     options_read env argv = Some (vm, options) →
     vm !! cli.LOG_CLEANUP_DAYS = Some {| as_value := u32 n; defaulted := b |} →
     logCleanupPeriod options = n) ∧
  (∀ parsed,
     cli.LOG_CLEANUP_DAYS ∉ parsed.*1 →
     store parsed (desc env) ∅ !! cli.LOG_CLEANUP_DAYS
       = Some {| as_value := u32 5; defaulted := true |}).
Proof.
  intros Hrules. split; [done|]. split; [|split].
  - intros argv p c Hin.
    destruct (serving_event_reaches env argv _ Hin eq_refl)
      as (t & vm & options & a & Hreach).
    assert (LogRotationStart p c ∈ serve_setup env options ∧
            CleanOldLogfiles LOG_FILES_DIR LOG_FILES_PREFIX
              (days2sec env (logCleanupPeriod options)) ∈ trace (process env argv).1)
      as [Hsetup Hclean].
    { destruct (decide (serve_setup_ok env options)) as [Hok|Hno].
      - destruct Hreach as (Hlog & _ & Htry & Ht & Hclean & _).
        destruct (process_serving env argv t options a Hlog Htry Hok)
          as (t' & t'' & Htr & _ & Hc & _ & Hend).
        rewrite Htr in Hin |- *.
        change (trace (run_entry env options a (record t (try_entry env))))
          with ((trace (try_entry env) ++ t) ++ serve_setup env options ++ [RunEnter])
          in Hin |- *.
        rewrite !elem_of_app in Hin. rewrite !elem_of_app.
        split; [|by left; left; right].
        destruct Hin as [[[Hin|Hin]|[Hin|Hin]]|[Hin|Hin]];
          [ by apply (not_serving_elem _ _ (try_entry_trace env)) in Hin
          | by apply (not_serving_elem _ _ Ht) in Hin
          | done
          | by apply list_elem_of_singleton in Hin
          | by apply (client_event_elem _ _ Hc) in Hin
          | ].
        destruct Hend as [(-> & _)|(e & -> & _)];
          apply list_elem_of_In in Hin; simpl in Hin; intuition discriminate.
      - destruct (setup_failed_trace _ _ _ _ _ _ Hreach Hno) as (n & e & _ & Htr & _).
        destruct Hreach as (_ & _ & _ & Ht & Hclean & _).
        rewrite Htr in Hin |- *. rewrite !elem_of_app in Hin. rewrite !elem_of_app.
        split; [|by right; left].
        destruct Hin as [Hin|[Hin|[Hin|Hin]]];
          [ by apply (not_serving_elem _ _ (try_entry_trace env)) in Hin
          | by apply (not_serving_elem _ _ Ht) in Hin
          | by apply subseteq_take in Hin
          | by apply list_elem_of_singleton in Hin ]. }
    apply serve_setup_rotation in Hsetup as [-> ->]. split; [done|].
    exists vm, options. split; [apply Hreach|done].
  - intros argv vm options n b Hread Hvm.
    destruct (options_read_inv env argv vm options Hread) as [-> _].
    by eapply notify_logCleanupPeriod.
  - apply store_cleanup_default.
Qed.

(** ** Further properties of [main] *)

(** Lines 159-171 end normally or by an exception: they hold no [return]
    and, the handler being installed before [run()], nothing kills the
    process. *)
Lemma main_serve_completion (env : Env) (options : options_t) (node_addr : Address)
    (w : world) :
  (main_serve env options node_addr w).2 = Normal tt ∨
  ∃ e, (main_serve env options node_addr w).2 = Throw e.
Proof.
  destruct (decide (serve_setup_ok env options)) as [Hok|Hno].
  - rewrite (main_serve_run _ _ _ _ Hok).
    destruct (deliver_completion (reactor_events env)
                (run_entry env options node_addr w)) as [Hr|[e Hr]]; [done| |];
      destruct (Reactor_deliver _ _) as [w' r]; cbn [snd] in Hr; subst r;
      cbn [snd]; eauto.
  - destruct (main_serve_setup_fails env options node_addr w Hno)
      as (n & e & _ & _ & Hc). eauto.
Qed.

(** The process once the options are read. *)
Lemma process_after_options (env : Env) (argv : list string) (vm : variables_map)
    (options : options_t) :
  logger_created env →
  options_read env argv = Some (vm, options) →
  process env argv =
  match (main_startup env vm options ≫= λ node_addr, main_serve env options node_addr)
          (record [CommandLineParse argv; CfgFileCommon; CfgFile "wallet-api.cfg"]
             (try_entry env)) with
  | (w, Normal _) => (leave_try_block w, Return 0)
  | (w, Return code) => (leave_try_block w, Return code)
  | (w, Throw e) =>
      (record [Log LOG_LEVEL_ERROR (catch_message e)] (leave_try_block w), Return 0)
  | (w, Killed) => (w, Killed)
  end.
Proof.
  intros Hlog Hread. rewrite (process_by_block _ _ Hlog). unfold main_block.
  rewrite (bind_eq (main_options env argv)).
  by rewrite (proj2 (options_read_inv env argv vm options Hread)).
Qed.

(** When the options are not read, the [try] block ended by the [return 0]
    of help or by an exception, and the process returns 0. *)
Lemma process_options_not_read (env : Env) (argv : list string) :
  logger_created env →
  options_read env argv = None →
  exit_code (process env argv) = Some 0.
Proof.
  intros Hlog. unfold options_read.
  rewrite (process_by_block _ _ Hlog). unfold main_block.
  rewrite (bind_eq (main_options env argv)), main_options_eq.
  destruct (command_line_parser env argv (desc env)) as [parsed|e]; [|done].
  cbv zeta. destruct (negb _); [done|].
  destruct (ReadCfgFromFileCommon env _ (desc env)) as [vm1|e]; [|done].
  destruct (ReadCfgFromFile env vm1 (desc env) _) as [vm2|e]; done.
Qed.

(** Lines 159-171 after a completed startup return 0 from [main]. *)
Lemma serve_returns_zero (env : Env) (options : options_t) (node_addr : Address)
    (w : world) :
  match main_serve env options node_addr w with
  | (w', Normal _) => Some 0
  | (w', Return code) => Some code
  | (w', Throw e) => Some 0
  | (w', Killed) => None
  end = Some 0.
Proof.
  destruct (main_serve_completion env options node_addr w) as [Hc|[e Hc]];
    destruct (main_serve env options node_addr w) as [w' r]; cbn [snd] in Hc;
    by subst r.
Qed.

(** X1. The status main returns is 0 or -1, and -1 only from the node
    address check: the options were read, the old log files were cleaned and
    the rules set up, and then either the address was absent from the map or
    it did not resolve, which the last line of the log says. *)
Theorem main_returns_zero_or_minus_one (env : Env) (argv : list string) :
  logger_created env →
  (exit_code (process env argv) = Some 0 ∨ exit_code (process env argv) = Some (-1)) ∧
  (exit_code (process env argv) = Some (-1) →
   ∃ vm options,
     options_read env argv = Some (vm, options) ∧
     startup_calls_return env vm options ∧
     (CleanOldLogfiles LOG_FILES_DIR LOG_FILES_PREFIX
        (days2sec env (logCleanupPeriod options)) ∈ trace (process env argv).1) ∧
     ((count vm cli.NODE_ADDR = 0 ∧
       last (trace (process env argv).1)
         = Some (Log LOG_LEVEL_ERROR [txt "node address should be specified"]))
      ∨
      (count vm cli.NODE_ADDR ≠ 0 ∧ resolve env (nodeURI options) = None ∧
       last (trace (process env argv).1)
         = Some (Log LOG_LEVEL_ERROR [txt "unable to resolve node address: `";
                                      txt (nodeURI options); txt "`"])))).
Proof.
  intros Hlog.
  destruct (options_read env argv) as [[vm options]|] eqn:Hread.
  2: { rewrite (process_options_not_read env argv Hlog Hread).
       split; [by left|done]. }
  rewrite (process_after_options env argv vm options Hlog Hread).
  rewrite bind_eq, main_startup_eq. cbv zeta.
  destruct (clean_old_logfiles env _ _ _) as [[]|e] eqn:Hclean.
  2: { split; [by left|done]. }
  destruct (getRulesOptions env vm) as [[]|e] eqn:Hrules.
  2: { split; [by left|done]. }
  destruct (Rules_UpdateChecksum env) as [[]|e] eqn:Hsum.
  2: { split; [by left|done]. }
  destruct (count vm cli.NODE_ADDR =? 0) eqn:Hcount.
  { split; [by right|]. intros _. exists vm, options.
    split; [done|]. split; [done|]. split.
    - cbn [fst]. rewrite leave_try_block_trace. unfold record. cbn [trace]. rewrite !elem_of_app.
      right. left. left. by left.
    - left. split; [lia|]. cbn [fst]. rewrite leave_try_block_trace. unfold record. cbn [trace].
      rewrite !app_assoc. apply last_snoc. }
  destruct (resolve env (nodeURI options)) as [node_addr|] eqn:Hres.
  - pose proof (serve_returns_zero env options node_addr
                  (record ([CleanOldLogfiles LOG_FILES_DIR LOG_FILES_PREFIX
                              (days2sec env (logCleanupPeriod options));
                            GetRulesOptions; RulesUpdateChecksum] ++ banner env
                           ++ [Resolve (nodeURI options)])
                     (record [CommandLineParse argv; CfgFileCommon;
                              CfgFile "wallet-api.cfg"] (try_entry env)))) as Hzero.
    destruct (main_serve _ _ _ _) as [w' [[]|code|e|]]; unfold exit_code; cbn [snd];
      try discriminate Hzero; try injection Hzero as ->; (split; [by left|done]).
  - split; [by right|]. intros _. exists vm, options.
    split; [done|]. split; [done|]. split.
    + cbn [fst]. rewrite leave_try_block_trace. unfold record. cbn [trace]. rewrite !elem_of_app.
      right. left. left. by left.
    + right. split; [lia|]. split; [done|]. cbn [fst]. rewrite leave_try_block_trace. unfold record. cbn [trace].
      change [Resolve (nodeURI options);
              Log LOG_LEVEL_ERROR [txt "unable to resolve node address: `";
                                   txt (nodeURI options); txt "`"]]
        with ([Resolve (nodeURI options)]
              ++ [Log LOG_LEVEL_ERROR [txt "unable to resolve node address: `";
                                       txt (nodeURI options); txt "`"]]).
      rewrite !app_assoc. apply last_snoc.
Qed.

(** A startup that succeeds hands lines 159-171 the struct and the
    resolved address, with [startup_events] in the trace. *)
Lemma startup_succeeds_try (env : Env) (argv : list string) (vm : variables_map)
    (options : options_t) (node_addr : Address) :
  startup_succeeds env argv vm options node_addr →
  main_block env argv (try_entry env) =
    main_serve env options node_addr
      (record (startup_events env argv options) (try_entry env)).
Proof.
  intros (Hlog & Hread & (Hclean & Hrules & Hsum) & Hcount & Hres).
  unfold main_block. rewrite (bind_eq (main_options env argv)).
  rewrite (proj2 (options_read_inv env argv vm options Hread)). cbv beta iota.
  rewrite bind_eq, main_startup_eq. cbv zeta. rewrite Hclean, Hrules, Hsum.
  destruct (count vm cli.NODE_ADDR =? 0) eqn:Hzero.
  { by apply Z.eqb_eq in Hzero. }
  rewrite Hres, record_record. unfold startup_events.
  by rewrite <- !app_assoc.
Qed.

Lemma startup_events_not_serving (env : Env) (argv : list string)
    (options : options_t) :
  Forall (λ e, serving e = false) (startup_events env argv options).
Proof. unfold startup_events, banner. by repeat constructor. Qed.

Lemma startup_succeeds_reaches (env : Env) (argv : list string) (vm : variables_map)
    (options : options_t) (node_addr : Address) :
  startup_succeeds env argv vm options node_addr →
  reaches_serve env argv (startup_events env argv options) vm options node_addr.
Proof.
  intros Hok. pose proof (startup_succeeds_try _ _ _ _ _ Hok) as Htry.
  destruct Hok as (Hlog & Hread & _ & Hcount & Hres).
  split; [done|]. split; [done|]. split; [done|].
  split; [apply startup_events_not_serving|]. split; [|done].
  unfold startup_events. do 3 right. by left.
Qed.

(** When the [WebSocketServer] base cannot be constructed, lines 159-168
    stop at the server: all of [serve_setup] happened, the exception is in
    flight. *)
Lemma main_serve_bind_fails (env : Env) (options : options_t) (node_addr : Address)
    (w : world) (e : exn) :
  SafeReactor_create env = returns tt →
  LogRotation_ctor env LOG_ROTATION_PERIOD_SEC
    (days2sec env (logCleanupPeriod options)) = returns tt →
  WebSocketServer_ctor env (port options) "Wallet service" (withPipes options)
    (allowedOrigin options) = throws e →
  trace (main_serve env options node_addr w).1 = trace w ++ serve_setup env options ∧
  (main_serve env options node_addr w).2 = Throw e.
Proof.
  intros Hr Hl Hs.
  unfold main_serve, GracefulIntHandler_ctor, LOG_INFO, WalletService_ctor,
    new_WalletMap, Reactor_run.
  repeat step. rewrite Hr. repeat step. rewrite Hl. repeat step.
  rewrite Hs. step. split; [|done].
  unfold record, with_int_handler, serve_setup. cbn [fst trace].
  by rewrite <- !app_assoc.
Qed.

(** X2. When the server cannot be constructed (the port cannot be bound),
    the reactor, the interrupt handler and the log rotation are already
    there; the exception is caught and logged as the last line, run() is
    never entered, no handler is constructed, and main returns 0. *)
Theorem bind_failure_is_logged_and_returns_zero (env : Env) (argv : list string)
    (vm : variables_map) (options : options_t) (node_addr : Address) (e : exn) :
  startup_succeeds env argv vm options node_addr →
  SafeReactor_create env = returns tt →
  LogRotation_ctor env LOG_ROTATION_PERIOD_SEC
    (days2sec env (logCleanupPeriod options)) = returns tt →
  WebSocketServer_ctor env (port options) "Wallet service" (withPipes options)
    (allowedOrigin options) = throws e →
  trace (process env argv).1 =
    trace (try_entry env) ++ startup_events env argv options
      ++ serve_setup env options ++ [Log LOG_LEVEL_ERROR (catch_message e)] ∧
  exit_code (process env argv) = Some 0 ∧
  ¬ entered_run (trace (process env argv).1) ∧
  constructed (trace (process env argv).1) = [].
Proof.
  intros Hok Hr Hl Hs.
  pose proof (startup_succeeds_try _ _ _ _ _ Hok) as Htry.
  destruct (main_serve_bind_fails env options node_addr
              (record (startup_events env argv options) (try_entry env)) e Hr Hl Hs)
    as [Htr Hc].
  assert (logger_created env) as Hlog by apply Hok.
  assert (trace (process env argv).1 =
          trace (try_entry env) ++ startup_events env argv options
            ++ serve_setup env options ++ [Log LOG_LEVEL_ERROR (catch_message e)]
          ∧ exit_code (process env argv) = Some 0) as [Heq Hexit].
  { rewrite (process_by_block _ _ Hlog), Htry.
    destruct (main_serve _ _ _ _) as [w' r]. cbn [fst snd] in Htr, Hc. subst r.
    split; [|done]. cbn [fst]. unfold record at 1. cbn [trace].
    rewrite leave_try_block_trace, Htr.
    unfold record. cbn [trace]. by rewrite <- !app_assoc. }
  split; [done|]. split; [done|]. rewrite Heq. split.
  - unfold entered_run. rewrite !elem_of_app. intros [Hin|[Hin|[Hin|Hin]]].
    + by apply (not_serving_elem _ _ (try_entry_trace env)) in Hin.
    + by apply (not_serving_elem _ _ (startup_events_not_serving env argv options))
        in Hin.
    + by apply serve_setup_no_run in Hin.
    + by apply list_elem_of_singleton in Hin.
  - rewrite !constructed_app.
    rewrite (constructed_not_serving _ (try_entry_trace env)).
    rewrite (constructed_not_serving _ (startup_events_not_serving env argv options)).
    rewrite (constructed_no_client (serve_setup env options))
      by (by repeat constructor).
    reflexivity.
Qed.

(** X6. The logger is created before the try block: an exception from
    Logger::create is not caught, so main does not return a status at all;
    the crash log is not activated and no option is parsed. *)
Theorem logger_exception_escapes_main (env : Env) (argv : list string) (e : exn) :
  Logger_create env (logPrefix env) (system_complete env LOG_FILES_DIR) = throws e →
  process env argv =
    (record [LoggerCreate (logPrefix env) (system_complete env LOG_FILES_DIR)] initial,
     Throw e) ∧
  exit_code (process env argv) = None.
Proof.
  intros Hthrows.
  assert (process env argv =
          (record [LoggerCreate (logPrefix env) (system_complete env LOG_FILES_DIR)]
             initial, Throw e)) as ->; [|done].
  unfold process, main. cbv zeta. by rewrite bind_eq, Hthrows.
Qed.

(** X8. When one of the two configuration files fails to load, the
    exception is caught and logged as the last line and main returns 0;
    the old log files have not been cleaned, the reactor is not created and
    run() is not entered. *)
Theorem configuration_failure_returns_zero (env : Env) (argv : list string)
    (parsed : list (cli.name * value)) (e : exn) :
  logger_created env →
  command_line_parser env argv (desc env) = returns parsed →
  count (store parsed (desc env) ∅) cli.HELP = 0 →
  (ReadCfgFromFileCommon env (store parsed (desc env) ∅) (desc env) = throws e ∨
   ∃ vm1, ReadCfgFromFileCommon env (store parsed (desc env) ∅) (desc env) = returns vm1 ∧
          ReadCfgFromFile env vm1 (desc env) "wallet-api.cfg" = throws e) →
  exit_code (process env argv) = Some 0 ∧
  last (trace (process env argv).1) = Some (Log LOG_LEVEL_ERROR (catch_message e)) ∧
  Forall (λ ev, serving ev = false) (trace (process env argv).1) ∧
  (∀ dir prefix sec, CleanOldLogfiles dir prefix sec ∉ trace (process env argv).1).
Proof.
  intros Hlog Hparse Hhelp Hcfg.
  rewrite (process_by_block _ _ Hlog). unfold main_block.
  rewrite (bind_eq (main_options env argv)), main_options_eq, Hparse. cbv zeta.
  rewrite Hhelp. cbn [Z.eqb negb].
  destruct Hcfg as [Hcommon|(vm1 & Hcommon & Hfile)]; rewrite Hcommon; [|rewrite Hfile];
    rewrite leave_try_block_record, record_record; cbn [fst snd app];
    unfold record; cbn [trace]; rewrite leave_try_block_trace;
    unfold exit_code; cbn [snd];
    (split; [done|]); (split; [done|]);
    (split; [by repeat constructor|]);
    intros dir prefix sec Hin; apply list_elem_of_In in Hin; simpl in Hin;
    intuition discriminate.
Qed.

(** With the interrupt handler installed and no callback throwing,
    [run()] returns. *)
Lemma deliver_no_exception (evs : list loop_event) (w : world) :
  int_handler w = true →
  Forall (λ ev, is_exception ev = false) evs →
  (Reactor_deliver evs w).2 = Normal tt.
Proof.
  revert w. induction evs as [|ev evs IH]; intros w Hh Hno; [done|].
  apply Forall_cons in Hno as [Hev Hno].
  rewrite deliver_cons, dispatch_completion.
  destruct ev as [wsSend|id update|id| |e]; try rewrite Hh; cbn [fst snd]; try done;
    apply IH; try done; by rewrite dispatch_int_handler.
Qed.

Lemma client_events_no_error (t : list event) :
  Forall (λ e, client_event e = true) t → Forall (λ e, is_error_log e = false) t.
Proof. intros Ht. eapply Forall_impl; [apply Ht|]. by intros []. Qed.

(** X7. A run in which nothing fails (startup succeeds, the three
    constructors return, no callback throws) leaves exactly this trace: the
    startup events, the setup of lines 159-168, run() entered, client
    events only while it executes, run() left, and Done as the last line.
    No error line is logged anywhere and main returns 0. *)
Theorem clean_run_logs_done_and_no_error (env : Env) (argv : list string)
    (vm : variables_map) (options : options_t) (node_addr : Address) :
  startup_succeeds env argv vm options node_addr →
  serve_setup_ok env options →
  Forall (λ ev, is_exception ev = false) (reactor_events env) →
  (∃ t', trace (process env argv).1 =
           trace (try_entry env) ++ startup_events env argv options
             ++ serve_setup env options ++ [RunEnter] ++ t'
             ++ [RunLeave; Log LOG_LEVEL_INFO [txt "Done"]] ∧
         Forall (λ e, client_event e = true) t') ∧
  Forall (λ e, is_error_log e = false) (trace (process env argv).1) ∧
  exit_code (process env argv) = Some 0.
Proof.
  intros Hstart Hok Hquiet.
  pose proof (startup_succeeds_try _ _ _ _ _ Hstart) as Htry.
  assert (logger_created env) as Hlog by apply Hstart.
  destruct (process_serving env argv _ options node_addr Hlog Htry Hok)
    as (t' & t'' & Htr & _ & Hc & _ & Hend).
  destruct Hend as [(-> & _ & Hexit)|(e & _ & He & _)].
  2: { rewrite deliver_no_exception in He; done. }
  assert (trace (process env argv).1 =
          trace (try_entry env) ++ startup_events env argv options
            ++ serve_setup env options ++ [RunEnter] ++ t'
            ++ [RunLeave; Log LOG_LEVEL_INFO [txt "Done"]]) as Heq.
  { rewrite Htr.
    change (trace (run_entry env options node_addr
                     (record (startup_events env argv options) (try_entry env))))
      with ((trace (try_entry env) ++ startup_events env argv options)
            ++ serve_setup env options ++ [RunEnter]).
    by rewrite <- !app_assoc. }
  split; [by exists t'|]. split.
  - rewrite Heq, !Forall_app. split; [by repeat constructor|].
    split; [unfold startup_events, banner; by repeat constructor|].
    split; [by repeat constructor|]. split; [by repeat constructor|].
    split; [by apply client_events_no_error|by repeat constructor].
  - unfold exit_code. by rewrite Hexit.
Qed.

(** X5. In a process that enters run(), the server was bound before, with
    the port, the pipes switch and the allowed origin of the options
    struct and the title "Wallet service"; the server alive until the try
    block is left carries the assets switch of the struct and the address
    the node URI resolved to, and so does every handler it constructs. *)
Theorem server_and_handlers_follow_the_options (env : Env) (argv : list string) :
  entered_run (trace (process env argv).1) →
  ∃ vm options node_addr server,
    options_read env argv = Some (vm, options) ∧
    resolve env (nodeURI options) = Some node_addr ∧
    listening (block_end env argv) = Some server ∧
    (ws_port server = port options ∧ ws_title server = "Wallet service" ∧
     ws_withPipes server = withPipes options ∧
     ws_allowedOrigin server = allowedOrigin options ∧
     _withAssets server = withAssets options ∧ _nodeAddr server = node_addr) ∧
    precedes (Listen (port options) "Wallet service" (withPipes options)
                (allowedOrigin options))
      RunEnter (trace (process env argv).1) ∧
    Forall (λ h, sc_withAssets h = withAssets options ∧ sc_nodeAddr h = node_addr)
      (constructed (trace (process env argv).1)).
Proof.
  intros Hrun.
  destruct (entered_run_reaches env argv Hrun)
    as (t & vm & options & a & Hreach & Hok).
  exists vm, options, a, (server_in options a (record t (try_entry env))).
  pose proof (block_end_listening _ _ _ _ _ _ Hreach Hok) as Hlisten.
  pose proof (process_constructed _ _ _ _ _ _ Hreach Hok) as Hk.
  destruct Hreach as (Hlog & Hread & Htry & Ht & _ & _ & Hres).
  split; [done|]. split; [done|]. split; [done|]. split; [done|]. split.
  - destruct (process_serving env argv t options a Hlog Htry Hok)
      as (t' & t'' & Htr & _).
    exists (trace (try_entry env) ++ t ++ serve_setup env options), (t' ++ t'').
    split; [|split].
    + rewrite Htr.
      change (trace (run_entry env options a (record t (try_entry env))))
        with ((trace (try_entry env) ++ t) ++ serve_setup env options ++ [RunEnter]).
      by rewrite <- !app_assoc.
    + rewrite !not_elem_of_app. split; [|split].
      * intros Hin. by apply (not_serving_elem _ _ (try_entry_trace env)) in Hin.
      * intros Hin. by apply (not_serving_elem _ _ Ht) in Hin.
      * apply serve_setup_no_run.
    + rewrite !elem_of_app. right. right. unfold serve_setup. do 6 right. by left.
  - rewrite Hk. apply Forall_fmap, Forall_forall. by intros wsSend _.
Qed.

(** ** The option table and the struct *)

Lemma member_value_assign_same (m : member) (x : value) (o : options_t) :
  fits m x = true → member_value m (assign m x o) = x.
Proof. by destruct m, x. Qed.

Lemma member_value_assign_other (m m' : member) (x : value) (o : options_t) :
  m ≠ m' → member_value m (assign m' x o) = member_value m o.
Proof. by destruct m, m', x. Qed.

Lemma member_value_notify_one_other (vm : variables_map) (o : options_t)
    (d : option_description) (m : member) :
  store_to d ≠ Some m → member_value m (notify_one vm o d) = member_value m o.
Proof.
  intros Hne. unfold notify_one.
  destruct (store_to d) as [m'|]; [|done].
  destruct (vm !! long_name d); [|done].
  apply member_value_assign_other. congruence.
Qed.

Lemma member_value_foldl_other (vm : variables_map) (ds : list option_description)
    (o : options_t) (m : member) :
  Forall (λ d, store_to d ≠ Some m) ds →
  member_value m (foldl (notify_one vm) o ds) = member_value m o.
Proof.
  intros Hds. revert o. induction Hds as [|d ds Hd _ IH]; intros o; [done|].
  simpl. rewrite IH. by apply member_value_notify_one_other.
Qed.

Lemma rules_store_nowhere (env : Env) (m : member) :
  rules_options_foreign env →
  Forall (λ d, store_to d ≠ Some m) (createRulesOptionsDescription env).
Proof. intros Hrules. eapply Forall_impl; [apply Hrules|]. simpl. congruence. Qed.

(** [notify] writes the value of the [i]-th option of the table to the
    member it is bound to, when no later option is bound to that member. *)
Lemma notify_general (env : Env) (vm : variables_map) (o : options_t) (i : nat)
    (d : option_description) (m : member) (xv : variable_value) :
  rules_options_foreign env →
  general_options !! i = Some d →
  store_to d = Some m →
  vm !! long_name d = Some xv →
  fits m (as_value xv) = true →
  Forall (λ d', store_to d' ≠ Some m) (drop (S i) general_options) →
  member_value m (notify (desc env) vm o) = as_value xv.
Proof.
  intros Hrules Hi Hm Hvm Hfits Hlater. unfold notify, desc.
  rewrite foldl_app, member_value_foldl_other by by apply rules_store_nowhere.
  rewrite <- (take_drop_middle general_options i d Hi), foldl_app. cbn [foldl].
  rewrite member_value_foldl_other by done.
  unfold notify_one at 1. rewrite Hm, Hvm. by apply member_value_assign_same.
Qed.

(** A member whose option is not in the map keeps what it held. *)
Lemma notify_general_absent (env : Env) (vm : variables_map) (o : options_t) (i : nat)
    (d : option_description) (m : member) :
  rules_options_foreign env →
  general_options !! i = Some d →
  vm !! long_name d = None →
  Forall (λ d', store_to d' ≠ Some m) (take i general_options) →
  Forall (λ d', store_to d' ≠ Some m) (drop (S i) general_options) →
  member_value m (notify (desc env) vm o) = member_value m o.
Proof.
  intros Hrules Hi Hvm Hearlier Hlater. unfold notify, desc.
  rewrite foldl_app, member_value_foldl_other by by apply rules_store_nowhere.
  rewrite <- (take_drop_middle general_options i d Hi), foldl_app. cbn [foldl].
  rewrite member_value_foldl_other by done.
  unfold notify_one at 1. rewrite Hvm.
  destruct (store_to d); by apply member_value_foldl_other.
Qed.

(** X3. Each option of lines 104-110 is bound to its own member: after
    notify, the port, node URI, allowed origin, poll period, pipes switch
    and assets switch of the struct are the values the variables map holds
    under the option of that name, and the node URI is the empty string
    when the map has no node address. *)
Theorem options_follow_the_map (env : Env) (argv : list string)
    (vm : variables_map) (options : options_t) :
  rules_options_foreign env →
  options_read env argv = Some (vm, options) →
  (∀ n b, vm !! cli.PORT = Some {| as_value := u16 n; defaulted := b |} →
          port options = n) ∧
  (∀ s b, vm !! cli.NODE_ADDR = Some {| as_value := str s; defaulted := b |} →
          nodeURI options = s) ∧
  (vm !! cli.NODE_ADDR = None → nodeURI options = "") ∧
  (∀ s b, vm !! cli.ALLOWED_ORIGIN = Some {| as_value := str s; defaulted := b |} →
          allowedOrigin options = s) ∧
  (∀ n b, vm !! cli.NODE_POLL_PERIOD
            = Some {| as_value := nonneg_u32 n; defaulted := b |} →
          pollPeriod_ms options = n) ∧
  (∀ x b, vm !! cli.WITH_SYNC_PIPES = Some {| as_value := boolean x; defaulted := b |} →
          withPipes options = x) ∧
  (∀ x b, vm !! cli.WITH_ASSETS = Some {| as_value := boolean x; defaulted := b |} →
          withAssets options = x).
Proof.
  intros Hrules Hread.
  destruct (options_read_inv env argv vm options Hread) as [-> _].
  set (o := options_declared env).
  repeat split.
  - intros n b Hvm.
    pose proof (notify_general env vm o 1 _ m_port _ Hrules eq_refl eq_refl Hvm eq_refl)
      as H. cbn [member_value as_value] in H.
    specialize (H ltac:(by repeat constructor)). congruence.
  - intros s b Hvm.
    pose proof (notify_general env vm o 2 _ m_nodeURI _ Hrules eq_refl eq_refl Hvm
                  eq_refl) as H. cbn [member_value as_value] in H.
    specialize (H ltac:(by repeat constructor)). congruence.
  - intros Hvm.
    pose proof (notify_general_absent env vm o 2 _ m_nodeURI Hrules eq_refl Hvm
                  ltac:(by repeat constructor) ltac:(by repeat constructor)) as H.
    cbn [member_value] in H. change (nodeURI o) with "" in H. congruence.
  - intros s b Hvm.
    pose proof (notify_general env vm o 3 _ m_allowedOrigin _ Hrules eq_refl eq_refl
                  Hvm eq_refl) as H. cbn [member_value as_value] in H.
    specialize (H ltac:(by repeat constructor)). congruence.
  - intros n b Hvm.
    pose proof (notify_general env vm o 5 _ m_pollPeriod_ms _ Hrules eq_refl eq_refl
                  Hvm eq_refl) as H. cbn [member_value as_value] in H.
    specialize (H ltac:(by repeat constructor)). congruence.
  - intros x b Hvm.
    pose proof (notify_general env vm o 6 _ m_withPipes _ Hrules eq_refl eq_refl Hvm
                  eq_refl) as H. cbn [member_value as_value] in H.
    specialize (H ltac:(by repeat constructor)). congruence.
  - intros x b Hvm.
    pose proof (notify_general env vm o 7 _ m_withAssets _ Hrules eq_refl eq_refl Hvm
                  eq_refl) as H. cbn [member_value as_value] in H.
    specialize (H ltac:(by repeat constructor)). congruence.
Qed.

Lemma foldl_store_default_other (ds : list option_description) (vm : variables_map)
    (k : cli.name) :
  Forall (λ d, long_name d ≠ k) ds → foldl store_default vm ds !! k = vm !! k.
Proof.
  intros Hds. revert vm. induction Hds as [|d ds Hd _ IH]; intros vm; [done|].
  simpl. rewrite IH. by apply store_default_other.
Qed.

(** An option of the table that has a default and is not on the command
    line enters the map with that default, marked as defaulted. *)
Lemma store_general_default (env : Env) (parsed : list (cli.name * value)) (i : nat)
    (d : option_description) (x : value) :
  general_options !! i = Some d →
  default_value d = Some x →
  long_name d ∉ parsed.*1 →
  Forall (λ d', long_name d' ≠ long_name d) (take i general_options) →
  store parsed (desc env) ∅ !! long_name d
    = Some {| as_value := x; defaulted := true |}.
Proof.
  intros Hi Hx Habsent Hearlier. unfold store, desc.
  rewrite foldl_app. apply foldl_store_default_Some.
  rewrite <- (take_drop_middle general_options i d Hi), foldl_app. cbn [foldl].
  apply foldl_store_default_Some.
  unfold store_default at 1. rewrite Hx.
  rewrite foldl_store_default_other, foldl_store_parsed_absent, lookup_empty by done.
  apply lookup_insert_eq.
Qed.

(** An option without a default that is neither on the command line nor
    among the rules options is not in the map. *)
Lemma store_general_none (env : Env) (parsed : list (cli.name * value))
    (k : cli.name) :
  k ∉ parsed.*1 →
  Forall (λ d, long_name d ≠ k ∨ default_value d = None) general_options →
  Forall (λ d, long_name d ≠ k) (createRulesOptionsDescription env) →
  store parsed (desc env) ∅ !! k = None.
Proof.
  intros Habsent Hgeneral Hrules. unfold store, desc.
  rewrite foldl_app, foldl_store_default_other by done.
  assert (∀ ds vm, Forall (λ d, long_name d ≠ k ∨ default_value d = None) ds →
                   vm !! k = None → foldl store_default vm ds !! k = None) as Hfold.
  { intros ds vm Hds. revert vm. induction Hds as [|d ds Hd _ IH]; intros vm Hvm; [done|].
    simpl. apply IH. destruct Hd as [Hne|Hnone].
    - by rewrite store_default_other.
    - unfold store_default. by rewrite Hnone. }
  apply Hfold; [done|]. by rewrite foldl_store_parsed_absent.
Qed.

(** X4. The defaults of lines 104-110: an option that is not on the command
    line is stored with port 8080, an empty allowed origin, poll period 0,
    pipes off, assets off.  The node address has no default: when it is
    not on the command line (and no rules option bears its name) the map
    stored from the command line does not count it. *)
Theorem option_defaults (env : Env) (parsed : list (cli.name * value)) :
  (cli.PORT ∉ parsed.*1 →
   store parsed (desc env) ∅ !! cli.PORT
     = Some {| as_value := u16 8080; defaulted := true |}) ∧
  (cli.ALLOWED_ORIGIN ∉ parsed.*1 →
   store parsed (desc env) ∅ !! cli.ALLOWED_ORIGIN
     = Some {| as_value := str ""; defaulted := true |}) ∧
  (cli.NODE_POLL_PERIOD ∉ parsed.*1 →
   store parsed (desc env) ∅ !! cli.NODE_POLL_PERIOD
     = Some {| as_value := nonneg_u32 0; defaulted := true |}) ∧
  (cli.WITH_SYNC_PIPES ∉ parsed.*1 →
   store parsed (desc env) ∅ !! cli.WITH_SYNC_PIPES
     = Some {| as_value := boolean false; defaulted := true |}) ∧
  (cli.WITH_ASSETS ∉ parsed.*1 →
   store parsed (desc env) ∅ !! cli.WITH_ASSETS
     = Some {| as_value := boolean false; defaulted := true |}) ∧
  (cli.NODE_ADDR ∉ parsed.*1 →
   Forall (λ d, long_name d ≠ cli.NODE_ADDR) (createRulesOptionsDescription env) →
   count (store parsed (desc env) ∅) cli.NODE_ADDR = 0).
Proof.
  repeat split.
  - intros Habsent.
    apply (store_general_default env parsed 1 _ (u16 8080) eq_refl eq_refl Habsent).
    by repeat constructor.
  - intros Habsent.
    apply (store_general_default env parsed 3 _ (str "") eq_refl eq_refl Habsent).
    by repeat constructor.
  - intros Habsent.
    apply (store_general_default env parsed 5 _ (nonneg_u32 0) eq_refl eq_refl Habsent).
    by repeat constructor.
  - intros Habsent.
    apply (store_general_default env parsed 6 _ (boolean false) eq_refl eq_refl Habsent).
    by repeat constructor.
  - intros Habsent.
    apply (store_general_default env parsed 7 _ (boolean false) eq_refl eq_refl Habsent).
    by repeat constructor.
  - intros Habsent Hrules. unfold count.
    rewrite (store_general_none env parsed cli.NODE_ADDR Habsent); [done| |done].
    unfold general_options.
    repeat (constructor; [first [by left|by right]|]). constructor.
Qed.

(** The options are read when the command line parses, help is not asked
    for and both configuration files load. *)
Lemma options_read_some (env : Env) (argv : list string)
    (parsed : list (cli.name * value)) (vm1 vm2 : variables_map) :
  command_line_parser env argv (desc env) = returns parsed →
  count (store parsed (desc env) ∅) cli.HELP = 0 →
  ReadCfgFromFileCommon env (store parsed (desc env) ∅) (desc env) = returns vm1 →
  ReadCfgFromFile env vm1 (desc env) "wallet-api.cfg" = returns vm2 →
  options_read env argv = Some (vm2, notify (desc env) vm2 (options_declared env)).
Proof.
  intros Hparse Hhelp Hcommon Hfile. unfold options_read.
  rewrite main_options_eq, Hparse. cbv zeta. rewrite Hhelp. cbn [Z.eqb negb].
  by rewrite Hcommon, Hfile.
Qed.

(** Once startup has succeeded the reactor gets created, whatever happens
    next. *)
Lemma startup_succeeds_trace (env : Env) (argv : list string) (vm : variables_map)
    (options : options_t) (node_addr : Address) :
  startup_succeeds env argv vm options node_addr →
  ∃ t, trace (process env argv).1 =
       trace (try_entry env) ++ startup_events env argv options ++ ReactorCreate :: t.
Proof.
  intros Hstart.
  pose proof (startup_succeeds_reaches _ _ _ _ _ Hstart) as Hreach.
  destruct (decide (serve_setup_ok env options)) as [Hok|Hno].
  - destruct Hreach as (Hlog & _ & Htry & _).
    destruct (process_serving env argv _ options node_addr Hlog Htry Hok)
      as (t' & t'' & Htr & _).
    eexists. rewrite Htr.
    change (trace (run_entry env options node_addr
                     (record (startup_events env argv options) (try_entry env))))
      with ((trace (try_entry env) ++ startup_events env argv options)
            ++ (ReactorCreate :: tail (serve_setup env options)) ++ [RunEnter]).
    rewrite <- !app_assoc. cbn [app]. reflexivity.
  - destruct (setup_failed_trace _ _ _ _ _ _ Hreach Hno) as (n & e & _ & Htr & _).
    eexists. rewrite Htr. unfold serve_setup. cbn [take app]. reflexivity.
Qed.

(** X9. The node address is checked and resolved from the map as it is
    after both configuration files were read, through options.nodeURI: if
    that map holds a node address that resolves and the startup calls
    return, startup succeeds, the address resolved is that one and the
    reactor is created, whether the address was on the command line or came
    from wallet-api.cfg. *)
Theorem node_address_is_read_after_configuration (env : Env) (argv : list string)
    (parsed : list (cli.name * value)) (vm1 vm2 : variables_map) (uri : string)
    (b : bool) (node_addr : Address) :
  logger_created env →
  rules_options_foreign env →
  command_line_parser env argv (desc env) = returns parsed →
  count (store parsed (desc env) ∅) cli.HELP = 0 →
  ReadCfgFromFileCommon env (store parsed (desc env) ∅) (desc env) = returns vm1 →
  ReadCfgFromFile env vm1 (desc env) "wallet-api.cfg" = returns vm2 →
  vm2 !! cli.NODE_ADDR = Some {| as_value := str uri; defaulted := b |} →
  resolve env uri = Some node_addr →
  startup_calls_return env vm2 (notify (desc env) vm2 (options_declared env)) →
  startup_succeeds env argv vm2 (notify (desc env) vm2 (options_declared env)) node_addr ∧
  (Resolve uri ∈ trace (process env argv).1) ∧
  (ReactorCreate ∈ trace (process env argv).1).
Proof.
  intros Hlog Hrules Hparse Hhelp Hcommon Hfile Hvm Hres Hcalls.
  pose proof (options_read_some env argv parsed vm1 vm2 Hparse Hhelp Hcommon Hfile)
    as Hread.
  set (options := notify (desc env) vm2 (options_declared env)) in *.
  assert (nodeURI options = uri) as Huri.
  { pose proof (notify_general env vm2 (options_declared env) 2 _ m_nodeURI _ Hrules
                  eq_refl eq_refl Hvm eq_refl ltac:(by repeat constructor)) as H.
    cbn [member_value as_value] in H. unfold options. congruence. }
  assert (startup_succeeds env argv vm2 options node_addr) as Hstart.
  { split; [done|]. split; [done|]. split; [done|]. split.
    - unfold count. by rewrite Hvm.
    - by rewrite Huri. }
  split; [done|].
  destruct (startup_succeeds_trace _ _ _ _ _ Hstart) as [t ->].
  rewrite !elem_of_app. split.
  - right. left. unfold startup_events. rewrite Huri, !elem_of_app.
    right. right. by left.
  - right. right. by left.
Qed.

End Service.

(** * Concrete runs

    One small outside world, varied in what the command line holds, whether
    the node address resolves and what the reactor delivers.  Addresses
    are the strings they were resolved from, a send function is the number
    of its connection, a wallet record is a number. *)

Definition sample_rules : list option_description :=
  [ {| long_name := cli.RULE "Fork1"; store_to := None;
       default_value := None; description := "Height of the 1st fork" |} ].

Definition sample_env (cmdline : outcome (list (cli.name * value)))
    (resolvable : bool) (delivered : list (@loop_event nat nat))
    : @Env string nat nat :=
  {| getCurrentPID := 4711;
     system_complete := λ p, "/var/lib/wallet-service/" +:+ p;
     Logger_create := λ _ _, returns tt;
     PROJECT_VERSION := "5.0";
     BRANCH_NAME := "master";
     NDEBUG := true;
     options_indeterminate :=
       {| port := 52428; nodeURI := ""; pollPeriod_ms := 3435973836;
          logCleanupPeriod := 3435973836; allowedOrigin := "";
          withPipes := true; withAssets := true |};
     createRulesOptionsDescription := sample_rules;
     command_line_parser := λ _ _, cmdline;
     ReadCfgFromFileCommon := λ vm _, returns vm;
     ReadCfgFromFile := λ vm _ _, returns vm;
     days2sec := λ days, (60 * 60 * 24 * days) mod 2 ^ 32;
     sec2readable := λ _, "12 hours";
     clean_old_logfiles := λ _ _ _, returns tt;
     getRulesOptions := λ _, returns tt;
     Rules_UpdateChecksum := returns tt;
     Rules_get_SignatureStr := "ed91a717313c6eb0";
     current_path := "/var/lib/wallet-service";
     resolve := λ uri, if resolvable then Some uri else None;
     SafeReactor_create := returns tt;
     LogRotation_ctor := λ _ _, returns tt;
     WebSocketServer_ctor := λ _ _ _ _, returns tt;
     reactor_events := delivered |}.

(** [--node_addr 127.0.0.1:10000], two clients, a signal. *)
Definition env_served : @Env string nat nat :=
  sample_env (returns [(cli.NODE_ADDR, str "127.0.0.1:10000")]) true
    [on_accept 1%nat; on_accept 2%nat; on_frame 0%nat (<["wallet-a" := 7%nat]>);
     on_close 0%nat; on_signal; on_accept 3%nat].

(** The same, with a callback that throws instead of the signal. *)
Definition env_callback_throws : @Env string nat nat :=
  sample_env (returns [(cli.NODE_ADDR, str "127.0.0.1:10000")]) true
    [on_accept 1%nat; on_exception (std_exception "bad frame")].

(** An option the description does not know. *)
Definition env_bad_command_line : @Env string nat nat :=
  sample_env (throws (std_exception "unrecognised option '--prot'")) true [].

(** [--help] *)
Definition env_help : @Env string nat nat :=
  sample_env (returns [(cli.HELP, str "")]) true [on_signal].

(** No node address at all. *)
Definition env_no_node_address : @Env string nat nat :=
  sample_env (returns [(cli.PORT, u16 9090)]) true [on_signal].

(** C1, at a command line that does not parse. *)
Lemma parse_failure_returns_zero_witness :
  logger_created env_bad_command_line ∧
  exit_code (process env_bad_command_line ["wallet-service"; "--prot"; "8080"]) = Some 0.
Proof.
  split; [reflexivity|].
  apply (parse_failure_returns_zero env_bad_command_line
           ["wallet-service"; "--prot"; "8080"]
           (std_exception "unrecognised option '--prot'"));
    reflexivity.
Defined.

(** C9, at the same command line: the parser's exception is the one
    caught. *)
Lemma caught_exception_returns_zero_witness :
  logger_created env_bad_command_line ∧
  exit_code (process env_bad_command_line ["wallet-service"; "--prot"; "8080"]) = Some 0.
Proof.
  split; [reflexivity|].
  apply (caught_exception_returns_zero env_bad_command_line
           ["wallet-service"; "--prot"; "8080"]
           (record [CommandLineParse ["wallet-service"; "--prot"; "8080"]]
              (try_entry env_bad_command_line))
           (std_exception "unrecognised option '--prot'"));
    reflexivity.
Defined.

(** C3, at a run in which a callback throws. *)
Lemma main_catches_every_exception_witness :
  logger_created env_callback_throws ∧
  (∃ code, (process env_callback_throws ["wallet-service"]).2 = Return code) ∧
  last (trace (process env_callback_throws ["wallet-service"]).1)
    = Some (Log LOG_LEVEL_ERROR [txt "EXCEPTION: "; txt "bad frame"]).
Proof.
  split; [reflexivity|].
  destruct (main_catches_every_exception env_callback_throws ["wallet-service"])
    as (Hreturns & _ & Hrun); [reflexivity|].
  split; [exact Hreturns|].
  apply (Hrun [on_accept 1%nat] (std_exception "bad frame") []).
  - unfold entered_run. vm_compute. repeat constructor.
  - reflexivity.
  - by repeat constructor.
Defined.

(** C4, at [--help]. *)
Lemma help_prints_description_and_returns_zero_witness :
  logger_created env_help ∧
  process env_help ["wallet-service"; "--help"] =
    (record [CommandLineParse ["wallet-service"; "--help"]; Cout (desc env_help)]
       (try_entry env_help), Return 0).
Proof.
  split; [reflexivity|].
  apply (help_prints_description_and_returns_zero env_help
           ["wallet-service"; "--help"] [(cli.HELP, str "")] (str "")).
  - reflexivity.
  - reflexivity.
  - by left.
Defined.

(** C2, at a command line without the node address. *)
Lemma node_address_required_witness :
  ((ReactorCreate ∉ trace (process env_no_node_address ["wallet-service"]).1) ∧
   (RunEnter ∉ trace (process env_no_node_address ["wallet-service"]).1) ∧
   constructed (trace (process env_no_node_address ["wallet-service"]).1) = []) ∧
  exit_code (process env_no_node_address ["wallet-service"]) = Some (-1).
Proof.
  destruct (node_address_required env_no_node_address ["wallet-service"])
    as [Hquiet Hexit].
  { intros vm options Hread. left.
    apply (inj Some), pair_equal_spec in Hread as [<- _]. reflexivity. }
  split; [exact Hquiet|].
  eapply Hexit; [reflexivity|reflexivity|by repeat split].
Defined.

Lemma env_served_entered_run :
  entered_run (trace (process env_served ["wallet-service"]).1).
Proof. unfold entered_run. vm_compute. repeat constructor. Qed.

(** C8, at a served run ended by a signal. *)
Lemma signal_handler_then_clean_shutdown_witness :
  entered_run (trace (process env_served ["wallet-service"]).1) ∧
  precedes IntHandlerInstall RunEnter (trace (process env_served ["wallet-service"]).1) ∧
  (RunLeave ∈ trace (process env_served ["wallet-service"]).1) ∧
  exit_code (process env_served ["wallet-service"]) = Some 0.
Proof.
  split; [exact env_served_entered_run|].
  destruct (signal_handler_then_clean_shutdown env_served ["wallet-service"]
              env_served_entered_run) as [Hbefore Hsignal].
  split; [exact Hbefore|].
  apply (Hsignal [on_accept 1%nat; on_accept 2%nat;
                  on_frame 0%nat (<["wallet-a" := 7%nat]>); on_close 0%nat]
                 [on_accept 3%nat]).
  - reflexivity.
  - by repeat constructor.
Defined.

(** A server whose wallet map lives at another address, listening with
    no connection open. *)
Definition server_elsewhere : @WalletService string :=
  {| ws_port := 9090; ws_title := "Wallet service"; ws_withPipes := false;
     ws_allowedOrigin := ""; _withAssets := true; _nodeAddr := "10.0.0.7:8501";
     _walletMap := 5%positive |}.

Definition world_elsewhere : @world string nat nat :=
  {| trace := []; int_handler := true;
     wallet_maps := {[ 3%positive := {[ "wallet-z" := 1%nat ]}; 5%positive := ∅ ]};
     listening := Some server_elsewhere; clients := ∅ |}.

(** C5, at the same run: two connections accepted before the signal, two
    handlers; and at the server whose wallet map lives elsewhere. *)
Lemma one_handler_per_accepted_connection_witness :
  accepted (reactor_events env_served) = [1%nat; 2%nat] ∧
  (∃ t, trace (Reactor_deliver [on_accept 4%nat; on_close 0%nat; on_accept 6%nat]
                 world_elsewhere).1 = trace world_elsewhere ++ t ∧
        Forall2 (λ h wsSend,
                   sc_wsSend h = wsSend ∧ sc_walletMap h = 5%positive ∧
                   sc_withAssets h = true ∧ sc_nodeAddr h = "10.0.0.7:8501")
          (constructed t) [4%nat; 6%nat]) ∧
  ∃ server,
    listening (block_end env_served ["wallet-service"]) = Some server ∧
    (_walletMap server ∈ dom (wallet_maps (block_end env_served ["wallet-service"]))) ∧
    constructed (trace (process env_served ["wallet-service"]).1) =
      ReactorThread_onNewWSClient server <$> accepted (reactor_events env_served) ∧
    Forall2 (λ h wsSend,
               sc_wsSend h = wsSend ∧ sc_walletMap h = _walletMap server ∧
               sc_withAssets h = _withAssets server ∧ sc_nodeAddr h = _nodeAddr server)
      (constructed (trace (process env_served ["wallet-service"]).1))
      (accepted (reactor_events env_served)).
Proof.
  split; [reflexivity|].
  destruct (one_handler_per_accepted_connection env_served ["wallet-service"])
    as [Hany Hprocess].
  split.
  - exact (Hany server_elsewhere world_elsewhere
             [on_accept 4%nat; on_close 0%nat; on_accept 6%nat] eq_refl).
  - exact (Hprocess env_served_entered_run).
Defined.

(** C6, at the same run: the first connection wrote to the registry and
    closed; the registry and its entry are still there when the statements
    of the try block end, and gone with the server when main has
    returned.  And at the server whose wallet map lives elsewhere. *)
Lemma handlers_share_the_service_registry_witness :
  (map_to_list <$> (wallet_maps (block_end env_served ["wallet-service"]) !! 1%positive)
     = Some [("wallet-a", 7%nat)]) ∧
  (∀ id h, clients (Reactor_deliver
                      [on_accept 4%nat; on_frame 0%nat (<["wallet-b" := 2%nat]>);
                       on_close 0%nat; on_accept 6%nat] world_elsewhere).1 !! id = Some h →
           sc_walletMap h = 5%positive) ∧
  wallet_maps (Reactor_deliver [on_accept 4%nat; on_close 0%nat; on_accept 6%nat]
                 world_elsewhere).1 = wallet_maps world_elsewhere ∧
  ∃ server,
    listening (block_end env_served ["wallet-service"]) = Some server ∧
    dom (wallet_maps (block_end env_served ["wallet-service"])) = {[ _walletMap server ]} ∧
    Forall (λ h, sc_walletMap h = _walletMap server)
      (constructed (trace (process env_served ["wallet-service"]).1)) ∧
    (∀ id h, clients (block_end env_served ["wallet-service"]) !! id = Some h →
             sc_walletMap h = _walletMap server) ∧
    listening (process env_served ["wallet-service"]).1 = None ∧
    wallet_maps (process env_served ["wallet-service"]).1 = ∅.
Proof.
  split; [by vm_compute|].
  destruct (handlers_share_the_service_registry env_served ["wallet-service"])
    as (Hany & Hconnections & Hprocess).
  split; [|split].
  - refine (proj1 (proj2 (Hany server_elsewhere world_elsewhere
                            [on_accept 4%nat; on_frame 0%nat (<["wallet-b" := 2%nat]>);
                             on_close 0%nat; on_accept 6%nat] eq_refl _))).
    intros id h Hh. unfold world_elsewhere in Hh. cbn [clients] in Hh.
    by rewrite lookup_empty in Hh.
  - apply Hconnections. by repeat constructor.
  - exact (Hprocess env_served_entered_run).
Defined.

(** C10, at the same run: no cleanup period given, so 5 days, 432000
    seconds, for the startup cleanup and for the rotation alike. *)
Lemma log_rotation_and_retention_witness :
  rules_options_foreign env_served ∧
  LOG_ROTATION_PERIOD_SEC = 43200 ∧
  (LogRotationStart 43200 432000 ∈ trace (process env_served ["wallet-service"]).1) ∧
  (CleanOldLogfiles LOG_FILES_DIR LOG_FILES_PREFIX 432000
     ∈ trace (process env_served ["wallet-service"]).1).
Proof.
  assert (rules_options_foreign env_served) as Hrules by (by repeat constructor).
  assert (LogRotationStart 43200 432000 ∈ trace (process env_served ["wallet-service"]).1)
    as Hrot by (vm_compute; repeat constructor).
  destruct (log_rotation_and_retention env_served Hrules) as (Hperiod & Hsame & _ & _).
  destruct (Hsame ["wallet-service"] 43200 432000 Hrot)
    as (_ & vm & options & Hread & Hsec & Hclean).
  by repeat split.
Defined.

(** C7, at two command lines that differ in the poll period only: the
    process is the same, event for event. *)
Lemma poll_period_ignored_example :
  process
    (sample_env (returns [(cli.NODE_ADDR, str "127.0.0.1:10000");
                          (cli.NODE_POLL_PERIOD, nonneg_u32 1)]) true
       [on_accept 1%nat; on_signal])
    ["wallet-service"]
  = process
      (sample_env (returns [(cli.NODE_ADDR, str "127.0.0.1:10000");
                            (cli.NODE_POLL_PERIOD, nonneg_u32 600000)]) true
         [on_accept 1%nat; on_signal])
      ["wallet-service"].
Proof. by vm_compute. Qed.

(** * Further concrete runs *)

(** The sample world again, varied in whether the logger can be created,
    what wallet-api.cfg does to the map and whether the port can be bound;
    the command line gives the node address unless said otherwise. *)
Definition sample_env2 (logger : outcome unit)
    (cfg : gmap cli.name variable_value → outcome (gmap cli.name variable_value))
    (bind : outcome unit) (cmdline : list (cli.name * value))
    (delivered : list (@loop_event nat nat)) : @Env string nat nat :=
  {| getCurrentPID := 4711;
     system_complete := λ p, "/var/lib/wallet-service/" +:+ p;
     Logger_create := λ _ _, logger;
     PROJECT_VERSION := "5.0";
     BRANCH_NAME := "master";
     NDEBUG := true;
     options_indeterminate :=
       {| port := 52428; nodeURI := ""; pollPeriod_ms := 3435973836;
          logCleanupPeriod := 3435973836; allowedOrigin := "";
          withPipes := true; withAssets := true |};
     createRulesOptionsDescription := sample_rules;
     command_line_parser := λ _ _, returns cmdline;
     ReadCfgFromFileCommon := λ vm _, returns vm;
     ReadCfgFromFile := λ vm _ _, cfg vm;
     days2sec := λ days, (60 * 60 * 24 * days) mod 2 ^ 32;
     sec2readable := λ _, "12 hours";
     clean_old_logfiles := λ _ _ _, returns tt;
     getRulesOptions := λ _, returns tt;
     Rules_UpdateChecksum := returns tt;
     Rules_get_SignatureStr := "ed91a717313c6eb0";
     current_path := "/var/lib/wallet-service";
     resolve := λ uri, Some uri;
     SafeReactor_create := returns tt;
     LogRotation_ctor := λ _ _, returns tt;
     WebSocketServer_ctor := λ _ _ _ _, bind;
     reactor_events := delivered |}.

(** The port is taken. *)
Definition env_bind_fails : @Env string nat nat :=
  sample_env2 (returns tt) returns
    (throws (std_exception "bind: address already in use"))
    [(cli.NODE_ADDR, str "127.0.0.1:10000"); (cli.WITH_ASSETS, boolean true)]
    [on_accept 1%nat; on_signal].

(** The log directory cannot be written. *)
Definition env_no_logger : @Env string nat nat :=
  sample_env2 (throws (std_exception "cannot create logs")) returns (returns tt)
    [(cli.NODE_ADDR, str "127.0.0.1:10000")] [on_signal].

(** wallet-api.cfg does not parse. *)
Definition env_bad_configuration : @Env string nat nat :=
  sample_env2 (returns tt) (λ _, throws (std_exception "wallet-api.cfg: bad line 3"))
    (returns tt) [(cli.NODE_ADDR, str "127.0.0.1:10000")] [on_signal].

(** The node address is in wallet-api.cfg only. *)
Definition env_configured : @Env string nat nat :=
  sample_env2 (returns tt)
    (λ vm, returns (<[cli.NODE_ADDR :=
                        {| as_value := str "10.0.0.5:8501"; defaulted := false |}]> vm))
    (returns tt) [(cli.PORT, u16 9090)] [on_accept 1%nat; on_signal].

(** The map and the struct of a world whose configuration files add
    nothing to the command line [cmdline]. *)
Definition vm_of (env : @Env string nat nat) (cmdline : list (cli.name * value))
    : gmap cli.name variable_value :=
  store cmdline (desc env) ∅.

Definition options_of (env : @Env string nat nat) (cmdline : list (cli.name * value))
    : options_t :=
  notify (desc env) (vm_of env cmdline) (options_declared env).

Lemma env_served_startup_succeeds :
  startup_succeeds env_served ["wallet-service"]
    (vm_of env_served [(cli.NODE_ADDR, str "127.0.0.1:10000")])
    (options_of env_served [(cli.NODE_ADDR, str "127.0.0.1:10000")])
    "127.0.0.1:10000".
Proof. by repeat split. Qed.

Lemma env_bind_fails_startup_succeeds :
  startup_succeeds env_bind_fails ["wallet-service"]
    (vm_of env_bind_fails
       [(cli.NODE_ADDR, str "127.0.0.1:10000"); (cli.WITH_ASSETS, boolean true)])
    (options_of env_bind_fails
       [(cli.NODE_ADDR, str "127.0.0.1:10000"); (cli.WITH_ASSETS, boolean true)])
    "127.0.0.1:10000".
Proof. by repeat split. Qed.

(** X1, at a command line without the node address. *)
Lemma main_returns_zero_or_minus_one_witness :
  logger_created env_no_node_address ∧
  exit_code (process env_no_node_address ["wallet-service"]) = Some (-1) ∧
  ∃ vm options,
    options_read env_no_node_address ["wallet-service"] = Some (vm, options) ∧
    startup_calls_return env_no_node_address vm options ∧
    (CleanOldLogfiles LOG_FILES_DIR LOG_FILES_PREFIX
       (days2sec env_no_node_address (logCleanupPeriod options))
       ∈ trace (process env_no_node_address ["wallet-service"]).1) ∧
    ((count vm cli.NODE_ADDR = 0 ∧
      last (trace (process env_no_node_address ["wallet-service"]).1)
        = Some (Log LOG_LEVEL_ERROR [txt "node address should be specified"]))
     ∨
     (count vm cli.NODE_ADDR ≠ 0 ∧
      resolve env_no_node_address (nodeURI options) = None ∧
      last (trace (process env_no_node_address ["wallet-service"]).1)
        = Some (Log LOG_LEVEL_ERROR [txt "unable to resolve node address: `";
                                     txt (nodeURI options); txt "`"]))).
Proof.
  split; [reflexivity|]. split; [reflexivity|].
  apply (main_returns_zero_or_minus_one env_no_node_address ["wallet-service"]);
    reflexivity.
Defined.

(** X2, at a port that is taken. *)
Lemma bind_failure_is_logged_and_returns_zero_witness :
  exit_code (process env_bind_fails ["wallet-service"]) = Some 0 ∧
  last (trace (process env_bind_fails ["wallet-service"]).1)
    = Some (Log LOG_LEVEL_ERROR [txt "EXCEPTION: "; txt "bind: address already in use"]) ∧
  constructed (trace (process env_bind_fails ["wallet-service"]).1) = [].
Proof.
  destruct (bind_failure_is_logged_and_returns_zero env_bind_fails ["wallet-service"]
              _ _ _ (std_exception "bind: address already in use")
              env_bind_fails_startup_succeeds eq_refl eq_refl eq_refl)
    as (Htrace & Hexit & _ & Hnone).
  split; [exact Hexit|]. split; [|exact Hnone].
  rewrite Htrace, !app_assoc. apply last_snoc.
Defined.

(** X3, at the served run: the struct holds the address given and the
    defaults of everything else. *)
Lemma options_follow_the_map_witness :
  rules_options_foreign env_served ∧
  nodeURI (options_of env_served [(cli.NODE_ADDR, str "127.0.0.1:10000")])
    = "127.0.0.1:10000" ∧
  port (options_of env_served [(cli.NODE_ADDR, str "127.0.0.1:10000")]) = 8080 ∧
  withAssets (options_of env_served [(cli.NODE_ADDR, str "127.0.0.1:10000")]) = false.
Proof.
  assert (rules_options_foreign env_served) as Hrules by (by repeat constructor).
  destruct (options_follow_the_map env_served ["wallet-service"]
              (vm_of env_served [(cli.NODE_ADDR, str "127.0.0.1:10000")])
              (options_of env_served [(cli.NODE_ADDR, str "127.0.0.1:10000")])
              Hrules eq_refl)
    as (Hport & Huri & _ & _ & _ & _ & Hassets).
  split; [exact Hrules|]. split; [|split].
  - by apply (Huri _ false).
  - by apply (Hport _ true).
  - by apply (Hassets _ true).
Defined.

(** X4, at the served run (the port defaults to 8080) and at a command line
    without the node address (none is counted). *)
Lemma option_defaults_witness :
  vm_of env_served [(cli.NODE_ADDR, str "127.0.0.1:10000")] !! cli.PORT
    = Some {| as_value := u16 8080; defaulted := true |} ∧
  count (vm_of env_no_node_address [(cli.PORT, u16 9090)]) cli.NODE_ADDR = 0.
Proof.
  split.
  - apply (option_defaults env_served [(cli.NODE_ADDR, str "127.0.0.1:10000")]).
    by apply not_elem_of_cons; split; [|apply not_elem_of_nil].
  - apply (option_defaults env_no_node_address [(cli.PORT, u16 9090)]).
    + by apply not_elem_of_cons; split; [|apply not_elem_of_nil].
    + by repeat constructor.
Defined.

(** X5, at the served run. *)
Lemma server_and_handlers_follow_the_options_witness :
  entered_run (trace (process env_served ["wallet-service"]).1) ∧
  ∃ vm options node_addr server,
    options_read env_served ["wallet-service"] = Some (vm, options) ∧
    resolve env_served (nodeURI options) = Some node_addr ∧
    listening (block_end env_served ["wallet-service"]) = Some server ∧
    (ws_port server = port options ∧ ws_title server = "Wallet service" ∧
     ws_withPipes server = withPipes options ∧
     ws_allowedOrigin server = allowedOrigin options ∧
     _withAssets server = withAssets options ∧ _nodeAddr server = node_addr) ∧
    precedes (Listen (port options) "Wallet service" (withPipes options)
                (allowedOrigin options))
      RunEnter (trace (process env_served ["wallet-service"]).1) ∧
    Forall (λ h, sc_withAssets h = withAssets options ∧ sc_nodeAddr h = node_addr)
      (constructed (trace (process env_served ["wallet-service"]).1)).
Proof.
  split; [exact env_served_entered_run|].
  exact (server_and_handlers_follow_the_options env_served ["wallet-service"]
           env_served_entered_run).
Defined.

(** X6, at a log directory that cannot be written. *)
Lemma logger_exception_escapes_main_witness :
  Logger_create env_no_logger (logPrefix env_no_logger)
    (system_complete env_no_logger LOG_FILES_DIR)
    = throws (std_exception "cannot create logs") ∧
  exit_code (process env_no_logger ["wallet-service"]) = None.
Proof.
  split; [reflexivity|].
  apply (logger_exception_escapes_main env_no_logger ["wallet-service"]
           (std_exception "cannot create logs")).
  reflexivity.
Defined.

(** X7, at the served run. *)
Lemma clean_run_logs_done_and_no_error_witness :
  serve_setup_ok env_served
    (options_of env_served [(cli.NODE_ADDR, str "127.0.0.1:10000")]) ∧
  last (trace (process env_served ["wallet-service"]).1)
    = Some (Log LOG_LEVEL_INFO [txt "Done"]) ∧
  Forall (λ e, is_error_log e = false) (trace (process env_served ["wallet-service"]).1) ∧
  exit_code (process env_served ["wallet-service"]) = Some 0.
Proof.
  assert (serve_setup_ok env_served
            (options_of env_served [(cli.NODE_ADDR, str "127.0.0.1:10000")]))
    as Hok by (by repeat split).
  destruct (clean_run_logs_done_and_no_error env_served ["wallet-service"] _ _ _
              env_served_startup_succeeds Hok)
    as ((t' & Htrace & _) & Hquiet & Hexit).
  { by repeat constructor. }
  split; [exact Hok|]. split; [|by split].
  rewrite Htrace, !last_app. reflexivity.
Defined.

(** X8, at a wallet-api.cfg that does not parse. *)
Lemma configuration_failure_returns_zero_witness :
  logger_created env_bad_configuration ∧
  exit_code (process env_bad_configuration ["wallet-service"]) = Some 0 ∧
  last (trace (process env_bad_configuration ["wallet-service"]).1)
    = Some (Log LOG_LEVEL_ERROR [txt "EXCEPTION: "; txt "wallet-api.cfg: bad line 3"]).
Proof.
  split; [reflexivity|].
  destruct (configuration_failure_returns_zero env_bad_configuration ["wallet-service"]
              [(cli.NODE_ADDR, str "127.0.0.1:10000")]
              (std_exception "wallet-api.cfg: bad line 3"))
    as (Hexit & Hlast & _); try reflexivity.
  { right. by eexists. }
  by split.
Defined.

(** X9, at a node address that only wallet-api.cfg gives. *)
Lemma node_address_is_read_after_configuration_witness :
  count (vm_of env_configured [(cli.PORT, u16 9090)]) cli.NODE_ADDR = 0 ∧
  (Resolve "10.0.0.5:8501" ∈ trace (process env_configured ["wallet-service"]).1) ∧
  (ReactorCreate ∈ trace (process env_configured ["wallet-service"]).1).
Proof.
  split; [reflexivity|].
  assert (rules_options_foreign env_configured) as Hrules by (by repeat constructor).
  destruct (node_address_is_read_after_configuration env_configured ["wallet-service"]
              [(cli.PORT, u16 9090)]
              (vm_of env_configured [(cli.PORT, u16 9090)])
              (<[cli.NODE_ADDR :=
                   {| as_value := str "10.0.0.5:8501"; defaulted := false |}]>
                 (vm_of env_configured [(cli.PORT, u16 9090)]))
              "10.0.0.5:8501" false "10.0.0.5:8501")
    as (_ & Hresolve & Hreactor); try reflexivity; done.
Defined.
